(** * Arduino-Level-2: the ultrasonic radar and the pulse-monitor sketches

    A shallow embedding of the four sketches of the repository and the
    properties their specification states about them.

    - [Radar] embeds [Ultrasonic-Radar-System-Arduino/sketch.ino]: hardware
      calls are recorded in a trace, the echo sensor is an oracle, and the
      [double] arithmetic of [calculateDistance] is IEEE 754 arithmetic as
      specified by the Standard Library's [SpecFloat].
    - [Pulse] embeds the three pulse-monitor sketches (the station-mode
      sketch, the access-point sketch and [health_monatring.ino]), which
      share their globals and their detection block; one loop iteration is a
      function of the globals and of what the environment delivers during
      that iteration (WebSocket events, sensor samples and the value of each
      [millis()] call). *)

From Stdlib Require Import ZArith List Lia Bool String DecimalString.
From Stdlib Require Import Floats.SpecFloat.
From Stdlib Require Import Ascii.
From Stdlib Require DecimalZ DecimalPos.
From Equations Require Import Equations.
Import ListNotations.
Open Scope Z_scope.

(** Decimal text of an integer, as [Serial.print(int)] writes it. *)
Definition string_of_Z (z : Z) : string := NilZero.string_of_int (Z.to_int z).

(* ================================================================== *)
(** ** The radar sketch *)
(* ================================================================== *)

Module Radar.

(** The board decides the format of [double] (binary32 on AVR boards,
    binary64 on 32-bit boards) and the width of [int]. *)
Record Platform := {
  dbl_prec : Z;   (* precision of [double], in bits *)
  dbl_emax : Z;   (* its maximal exponent *)
  int_bits : Z    (* width of [int] *)
}.

Definition avr : Platform := {| dbl_prec := 24; dbl_emax := 128; int_bits := 16 |}.
Definition arm32 : Platform := {| dbl_prec := 53; dbl_emax := 1024; int_bits := 32 |}.

Definition trigPin : Z := 2.
Definition echoPin : Z := 3.
Definition LOW : bool := false.
Definition HIGH : bool := true.

(** What the sketch does to the outside world, in program order. *)
Inductive Action :=
| DigitalWrite (pin : Z) (level : bool)
| DelayMicroseconds (us : Z)
| Delay (ms : Z)
| PulseIn (pin : Z) (level : bool) (result : Z)
| ServoWrite (angle : Z)
| SerialPrint (text : string).

(** The globals [duration] and [distance], the number of [pulseIn] calls made
    so far (the index into the echo oracle) and the trace. *)
Record State := {
  duration : Z;
  distance : Z;
  pulses : nat;
  trace : list Action
}.

Definition init : State :=
  {| duration := 0; distance := 0; pulses := 0; trace := [] |}.

(** State and error monad: [None] is undefined behaviour. *)
Definition M (A : Type) : Type := State -> option (A * State).

Definition ret {A} (a : A) : M A := fun s => Some (a, s).

Definition bind {A B} (m : M A) (f : A -> M B) : M B :=
  fun s => match m s with
           | Some (a, s') => f a s'
           | None => None
           end.

Definition lift {A} (o : option A) : M A :=
  fun s => match o with Some a => Some (a, s) | None => None end.

Declare Scope radar_scope.
Delimit Scope radar_scope with radar.
Notation "x <- m ;; k" := (bind m (fun x => k))
  (at level 61, m at next level, right associativity) : radar_scope.
Notation "m ;;; k" := (bind m (fun _ => k))
  (at level 61, right associativity) : radar_scope.
Local Open Scope radar_scope.

Definition emit (a : Action) : M unit :=
  fun s => Some (tt, {| duration := duration s; distance := distance s;
                        pulses := pulses s; trace := trace s ++ [a] |}).

Definition get_duration : M Z := fun s => Some (duration s, s).
Definition get_distance : M Z := fun s => Some (distance s, s).

Definition set_duration (d : Z) : M unit :=
  fun s => Some (tt, {| duration := d; distance := distance s;
                        pulses := pulses s; trace := trace s |}).

Definition set_distance (d : Z) : M unit :=
  fun s => Some (tt, {| duration := duration s; distance := d;
                        pulses := pulses s; trace := trace s |}).

Section Sketch.

Variable pf : Platform.

(** [echo k] is what the [k]-th call of [pulseIn(echoPin, HIGH)] returns:
    the length of the echo pulse in microseconds. *)
Variable echo : nat -> Z.

(** *** [double] arithmetic *)

Definition double := spec_float.

(** Conversion of an integer to [double] (round to nearest even). *)
Definition of_long (z : Z) : double :=
  binary_normalize (dbl_prec pf) (dbl_emax pf) z 0 false.

Definition dmul : double -> double -> double := SFmul (dbl_prec pf) (dbl_emax pf).
Definition ddiv : double -> double -> double := SFdiv (dbl_prec pf) (dbl_emax pf).

(** The literal [0.034]: the [double] nearest to 34/1000, obtained as the
    correctly rounded quotient of two exactly represented integers. *)
Definition lit_0_034 : double := ddiv (of_long 34) (of_long 1000).

(** Truncation toward zero of a finite [double]. *)
Definition truncate (f : double) : option Z :=
  match f with
  | S754_zero _ => Some 0
  | S754_finite sign m e =>
      let a := match e with
               | Zneg p => Z.shiftr (Zpos m) (Zpos p)
               | _ => Z.shiftl (Zpos m) e
               end in
      Some (if sign then - a else a)
  | S754_infinity _ => None
  | S754_nan => None
  end.

(** Conversion of a [double] to [int]: the truncated value when [int] can
    represent it, undefined otherwise. *)
Definition to_int (f : double) : option Z :=
  match truncate f with
  | Some z =>
      if (- 2 ^ (int_bits pf - 1) <=? z) && (z <? 2 ^ (int_bits pf - 1))
      then Some z else None
  | None => None
  end.

(** [duration * 0.034 / 2], converted to [int]. *)
Definition distance_of (d : Z) : option Z :=
  to_int (ddiv (dmul (of_long d) lit_0_034) (of_long 2)).

(** *** Hardware calls *)

Definition digitalWrite (pin : Z) (level : bool) : M unit := emit (DigitalWrite pin level).
Definition delayMicroseconds (us : Z) : M unit := emit (DelayMicroseconds us).
Definition delay (ms : Z) : M unit := emit (Delay ms).
Definition myservo_write (angle : Z) : M unit := emit (ServoWrite angle).
Definition Serial_print (text : string) : M unit := emit (SerialPrint text).
Definition Serial_print_int (z : Z) : M unit := emit (SerialPrint (string_of_Z z)).

Definition pulseIn (pin : Z) (level : bool) : M Z :=
  fun s =>
    let r := echo (pulses s) in
    Some (r, {| duration := duration s; distance := distance s;
                pulses := S (pulses s);
                trace := trace s ++ [PulseIn pin level r] |}).

(** *** [calculateDistance] (sketch.ino, lines 11-20) *)

Definition calculateDistance : M Z :=
  digitalWrite trigPin LOW ;;;
  delayMicroseconds 2 ;;;
  digitalWrite trigPin HIGH ;;;
  delayMicroseconds 10 ;;;
  digitalWrite trigPin LOW ;;;
  r <- pulseIn echoPin HIGH ;;
  set_duration r ;;;
  d <- get_duration ;;
  x <- lift (distance_of d) ;;
  set_distance x ;;;
  get_distance.

(** *** [loop] (sketch.ino, lines 29-48) *)

(** The body shared by the two [for] statements (lines 31-37 and 40-46 are
    the same text). *)
Definition sweep_body (i : Z) : M unit :=
  myservo_write i ;;;
  delay 15 ;;;
  x <- calculateDistance ;;
  set_distance x ;;;
  Serial_print_int i ;;;
  Serial_print "," ;;;
  d <- get_distance ;;
  Serial_print_int d ;;;
  Serial_print ".".

(** [for (int i = lo; i <= hi; i++) body(i)] *)
Equations? for_up (i hi : Z) (body : Z -> M unit) (s : State)
  : option (unit * State) by wf (Z.to_nat (hi + 1 - i)) lt :=
  for_up i hi body s with Z_le_gt_dec i hi := {
    | left _ with body i s := {
        | Some (_, s') => for_up (i + 1) hi body s'
        | None => None }
    | right _ => Some (tt, s) }.
Proof. lia. Qed.

(** [for (int i = hi; i >= lo; i--) body(i)] *)
Equations? for_down (i lo : Z) (body : Z -> M unit) (s : State)
  : option (unit * State) by wf (Z.to_nat (i + 1 - lo)) lt :=
  for_down i lo body s with Z_le_gt_dec lo i := {
    | left _ with body i s := {
        | Some (_, s') => for_down (i - 1) lo body s'
        | None => None }
    | right _ => Some (tt, s) }.
Proof. lia. Qed.

Definition loop : M unit :=
  for_up 15 165 sweep_body ;;;
  for_down 165 15 sweep_body.

(** [n] successive passes of [loop]. *)
Fixpoint passes (n : nat) : M unit :=
  match n with
  | O => ret tt
  | S n' => loop ;;; passes n'
  end.

(** *** What one step of the sweep does *)

(** The calls of one measurement whose echo lasts [r] microseconds. *)
Definition measure_trace (r : Z) : list Action :=
  [DigitalWrite trigPin LOW; DelayMicroseconds 2;
   DigitalWrite trigPin HIGH; DelayMicroseconds 10;
   DigitalWrite trigPin LOW; PulseIn echoPin HIGH r].

(** The text of one reading: the angle, a comma, the distance, a full
    stop. *)
Definition reading_text (a z : Z) : string :=
  (string_of_Z a ++ "," ++ string_of_Z z ++ ".")%string.

(** The calls of one step at angle [a], for an echo [r] converted to the
    distance [z]. *)
Definition step_trace (a r z : Z) : list Action :=
  [ServoWrite a; Delay 15] ++ measure_trace r ++
  [SerialPrint (string_of_Z a); SerialPrint ","; SerialPrint (string_of_Z z);
   SerialPrint "."].

(** The calls of the steps at [angles], the first of which makes the
    [n]-th measurement; [dist k] is the distance of the [k]-th echo. *)
Fixpoint sweep_trace (dist : nat -> Z) (angles : list Z) (n : nat) : list Action :=
  match angles with
  | [] => []
  | a :: rest => step_trace a (echo n) (dist n) ++ sweep_trace dist rest (S n)
  end.

(** A body run on a list of values, one after the other. *)
Fixpoint steps (body : Z -> M unit) (l : list Z) : M unit :=
  match l with
  | [] => ret tt
  | a :: rest => body a ;;; steps body rest
  end.

End Sketch.

(** *** The distance formula *)

(** Modelled from the spec: [distance_cm = echo_duration_us * 0.034 / 2] in
    exact arithmetic (0.034 is 34/1000), the fraction dropped as the store
    into the integer result drops it. *)
Definition distance_cm (echo_duration_us : Z) : Z :=
  Z.quot (echo_duration_us * 34) (1000 * 2).

(** *** Observations on a trace *)

(** The text written to the serial port. *)
Fixpoint serial_text (t : list Action) : string :=
  match t with
  | [] => EmptyString
  | SerialPrint x :: t' => (x ++ serial_text t')%string
  | _ :: t' => serial_text t'
  end.

(** The servo writes and echo measurements of a trace, in order. *)
Definition is_sweep_event (a : Action) : bool :=
  match a with
  | ServoWrite _ => true
  | PulseIn _ _ _ => true
  | _ => false
  end.

Definition sweep_events (t : list Action) : list Action := filter is_sweep_event t.

(** The angles written to the servo, in order. *)
Fixpoint servo_angles (t : list Action) : list Z :=
  match t with
  | [] => []
  | ServoWrite a :: t' => a :: servo_angles t'
  | _ :: t' => servo_angles t'
  end.

(** [n] consecutive integers upward from [i], and downward from [i]. *)
Definition upward (i : Z) (n : nat) : list Z := map (fun k => i + Z.of_nat k) (seq 0 n).
Definition downward (i : Z) (n : nat) : list Z := map (fun k => i - Z.of_nat k) (seq 0 n).

(** The angles of one pass of [loop]: 15 up to 165, then 165 down to 15. *)
Definition ascending : list Z := upward 15 151.
Definition descending : list Z := downward 165 151.
Definition pass_angles : list Z := ascending ++ descending.

(** The servo writes and measurements of the steps at [angles]. *)
Fixpoint sweep_pairs (echo : nat -> Z) (angles : list Z) (n : nat) : list Action :=
  match angles with
  | [] => []
  | a :: rest => ServoWrite a :: PulseIn echoPin HIGH (echo n) :: sweep_pairs echo rest (S n)
  end.

(** The serial text of the steps at [angles]. *)
Fixpoint sweep_text (dist : nat -> Z) (angles : list Z) (n : nat) : string :=
  match angles with
  | [] => EmptyString
  | a :: rest => (reading_text a (dist n) ++ sweep_text dist rest (S n))%string
  end.

(** *** Counting what a trace does *)

(** Milliseconds spent in [delay], microseconds spent in
    [delayMicroseconds], and the number of echo measurements. *)
Fixpoint delay_ms (t : list Action) : Z :=
  match t with
  | [] => 0
  | Delay ms :: t' => ms + delay_ms t'
  | _ :: t' => delay_ms t'
  end.

Fixpoint delay_us (t : list Action) : Z :=
  match t with
  | [] => 0
  | DelayMicroseconds us :: t' => us + delay_us t'
  | _ :: t' => delay_us t'
  end.

Fixpoint measurements (t : list Action) : nat :=
  match t with
  | [] => O
  | PulseIn _ _ _ :: t' => S (measurements t')
  | _ :: t' => measurements t'
  end.

(** *** Reading the serial stream back

    A reader of the serial port splits the stream at each full stop and
    each reading at its comma. *)

(** The text before the first occurrence of [c], and the text after it. *)
Fixpoint split_at (c : ascii) (s : string) : option (string * string) :=
  match s with
  | EmptyString => None
  | String x rest =>
      if Ascii.eqb x c then Some (EmptyString, rest)
      else match split_at c rest with
           | Some (before, after) => Some (String x before, after)
           | None => None
           end
  end.

(** The character [c] does not occur in [s]. *)
Fixpoint avoids (c : ascii) (s : string) : bool :=
  match s with
  | EmptyString => true
  | String x rest => negb (Ascii.eqb x c) && avoids c rest
  end.

Definition Z_of_string (s : string) : option Z :=
  option_map Z.of_int (NilZero.int_of_string s).

Fixpoint parse_readings (fuel : nat) (s : string) : option (list (Z * Z)) :=
  match s with
  | EmptyString => Some []
  | _ =>
      match fuel with
      | O => None
      | S fuel' =>
          match split_at "," s with
          | Some (a, rest) =>
              match split_at "." rest with
              | Some (d, rest') =>
                  match Z_of_string a, Z_of_string d, parse_readings fuel' rest' with
                  | Some x, Some y, Some l => Some ((x, y) :: l)
                  | _, _, _ => None
                  end
              | None => None
              end
          | None => None
          end
      end
  end.

(** Every reading takes at least one character, so the length of the
    stream is fuel enough. *)
Definition read_stream (s : string) : option (list (Z * Z)) :=
  parse_readings (String.length s) s.

(** The readings of the steps at [angles]. *)
Fixpoint sweep_readings (dist : nat -> Z) (angles : list Z) (n : nat) : list (Z * Z) :=
  match angles with
  | [] => []
  | a :: rest => (a, dist n) :: sweep_readings dist rest (S n)
  end.

End Radar.

(* ================================================================== *)
(** ** The pulse-monitor sketches *)
(* ================================================================== *)

Module Pulse.

(** The three sketches: the station-mode sketch (it joins an existing WiFi
    network and builds its JSON documents in place), the access-point
    sketch "PulseMonitor", and the health monitor [health_monatring.ino]
    with its BMP280. Their [loop] functions differ in the periodic
    environmental read and in the serial report, their [webSocketEvent]
    handlers in what they send to a new client. *)
Inductive Sketch := Station | AccessPoint | Health.

(** *** Machine arithmetic of the ESP8266

    [unsigned long] and [int] are 32 bits wide, [float] is binary32. *)

Definition u32 (z : Z) : Z := z mod 2 ^ 32.

(** Subtraction of two [unsigned long] values. *)
Definition usub (a b : Z) : Z := u32 (a - b).

(** Conversion of an [unsigned long] to [int] (two's complement). *)
Definition to_int (z : Z) : Z := (z + 2 ^ 31) mod 2 ^ 32 - 2 ^ 31.

(** Division of two [unsigned long] values; undefined for a zero divisor. *)
Definition udiv (a b : Z) : option Z :=
  if b =? 0 then None else Some (a / b).

Definition float := spec_float.
Definition float_of_Z (z : Z) : float := binary_normalize 24 128 z 0 false.
Definition fdiv : float -> float -> float := SFdiv 24 128.

(** *** JSON documents and the WebSocket server *)

Inductive JsonValue :=
| JStr (s : string)
| JInt (z : Z)
| JFloat (f : float).

(** A document keeps its members in the order of assignment. *)
Definition JsonDocument := list (string * JsonValue).

Fixpoint member (key : string) (doc : JsonDocument) : option JsonValue :=
  match doc with
  | [] => None
  | (k, v) :: doc' => if String.eqb k key then Some v else member key doc'
  end.

(** Calls made on the WebSocket server. *)
Inductive WsCall :=
| BroadcastTXT (doc : JsonDocument)
| SendTXT (num : Z) (doc : JsonDocument).

(** Event types of the WebSockets library ([WStype_t]). *)
Inductive WStype_t :=
| WStype_ERROR
| WStype_DISCONNECTED
| WStype_CONNECTED
| WStype_TEXT
| WStype_BIN
| WStype_FRAGMENT_TEXT_START
| WStype_FRAGMENT_BIN_START
| WStype_FRAGMENT
| WStype_FRAGMENT_FIN
| WStype_PING
| WStype_PONG.

(** An event handed to [webSocketEvent], with the address that
    [webSocket.remoteIP(num)] reports for the client. *)
Record WsEvent := {
  ev_num : Z;
  ev_type : WStype_t;
  ev_payload : string;
  ev_ip : Z * Z * Z * Z
}.

(** What is written to the serial port. *)
Inductive SerialItem :=
| PStr (s : string)
| PInt (z : Z)
| PFloat (f : float)
| PLn.

(** *** Globals

    The globals of the health monitor, and the two output streams. The
    other two sketches declare neither [temperature], [pressure] nor
    [lastEnvReadTime]; in their runs these fields keep their initial
    values. *)

Record State := {
  pulseValue : Z;
  BPM : Z;
  temperature : float;
  pressure : float;
  pulseDetected : bool;
  lastBeatTime : Z;
  lastSerialPrintTime : Z;
  lastEnvReadTime : Z;
  serial : list SerialItem;
  ws : list WsCall
}.

Definition init : State := {|
  pulseValue := 0; BPM := 0;
  temperature := float_of_Z 0; pressure := float_of_Z 0;
  pulseDetected := false;
  lastBeatTime := 0; lastSerialPrintTime := 0; lastEnvReadTime := 0;
  serial := []; ws := []
|}.

Definition set_pulseValue (v : Z) (s : State) : State :=
  {| pulseValue := v; BPM := BPM s; temperature := temperature s;
     pressure := pressure s; pulseDetected := pulseDetected s;
     lastBeatTime := lastBeatTime s;
     lastSerialPrintTime := lastSerialPrintTime s;
     lastEnvReadTime := lastEnvReadTime s; serial := serial s; ws := ws s |}.

Definition set_BPM (v : Z) (s : State) : State :=
  {| pulseValue := pulseValue s; BPM := v; temperature := temperature s;
     pressure := pressure s; pulseDetected := pulseDetected s;
     lastBeatTime := lastBeatTime s;
     lastSerialPrintTime := lastSerialPrintTime s;
     lastEnvReadTime := lastEnvReadTime s; serial := serial s; ws := ws s |}.

Definition set_temperature (v : float) (s : State) : State :=
  {| pulseValue := pulseValue s; BPM := BPM s; temperature := v;
     pressure := pressure s; pulseDetected := pulseDetected s;
     lastBeatTime := lastBeatTime s;
     lastSerialPrintTime := lastSerialPrintTime s;
     lastEnvReadTime := lastEnvReadTime s; serial := serial s; ws := ws s |}.

Definition set_pressure (v : float) (s : State) : State :=
  {| pulseValue := pulseValue s; BPM := BPM s; temperature := temperature s;
     pressure := v; pulseDetected := pulseDetected s;
     lastBeatTime := lastBeatTime s;
     lastSerialPrintTime := lastSerialPrintTime s;
     lastEnvReadTime := lastEnvReadTime s; serial := serial s; ws := ws s |}.

Definition set_pulseDetected (v : bool) (s : State) : State :=
  {| pulseValue := pulseValue s; BPM := BPM s; temperature := temperature s;
     pressure := pressure s; pulseDetected := v;
     lastBeatTime := lastBeatTime s;
     lastSerialPrintTime := lastSerialPrintTime s;
     lastEnvReadTime := lastEnvReadTime s; serial := serial s; ws := ws s |}.

Definition set_lastBeatTime (v : Z) (s : State) : State :=
  {| pulseValue := pulseValue s; BPM := BPM s; temperature := temperature s;
     pressure := pressure s; pulseDetected := pulseDetected s;
     lastBeatTime := v;
     lastSerialPrintTime := lastSerialPrintTime s;
     lastEnvReadTime := lastEnvReadTime s; serial := serial s; ws := ws s |}.

Definition set_lastSerialPrintTime (v : Z) (s : State) : State :=
  {| pulseValue := pulseValue s; BPM := BPM s; temperature := temperature s;
     pressure := pressure s; pulseDetected := pulseDetected s;
     lastBeatTime := lastBeatTime s;
     lastSerialPrintTime := v;
     lastEnvReadTime := lastEnvReadTime s; serial := serial s; ws := ws s |}.

Definition set_lastEnvReadTime (v : Z) (s : State) : State :=
  {| pulseValue := pulseValue s; BPM := BPM s; temperature := temperature s;
     pressure := pressure s; pulseDetected := pulseDetected s;
     lastBeatTime := lastBeatTime s;
     lastSerialPrintTime := lastSerialPrintTime s;
     lastEnvReadTime := v; serial := serial s; ws := ws s |}.

(** [Serial.print] and friends append to the serial output. *)
Definition Serial_out (items : list SerialItem) (s : State) : State :=
  {| pulseValue := pulseValue s; BPM := BPM s; temperature := temperature s;
     pressure := pressure s; pulseDetected := pulseDetected s;
     lastBeatTime := lastBeatTime s;
     lastSerialPrintTime := lastSerialPrintTime s;
     lastEnvReadTime := lastEnvReadTime s;
     serial := serial s ++ items; ws := ws s |}.

Definition ws_call (c : WsCall) (s : State) : State :=
  {| pulseValue := pulseValue s; BPM := BPM s; temperature := temperature s;
     pressure := pressure s; pulseDetected := pulseDetected s;
     lastBeatTime := lastBeatTime s;
     lastSerialPrintTime := lastSerialPrintTime s;
     lastEnvReadTime := lastEnvReadTime s;
     serial := serial s; ws := ws s ++ [c] |}.

(** *** What the environment delivers during one iteration of [loop]

    Each [millis()] call of the loop body has its own reading, because the
    clock may tick between two calls; the fields are named after what the
    reading is used for. A reading is an [unsigned long]. *)
Record Input := {
  events : list WsEvent;    (* dispatched by [webSocket.loop()] *)
  sample : Z;               (* [analogRead(A0)] *)
  bmp_temperature : float;  (* [bmp.readTemperature()] *)
  bmp_pressure : float;     (* [bmp.readPressure()] *)
  t_env : Z;                (* [millis() - lastEnvReadTime > 2000] *)
  t_env_set : Z;            (* [lastEnvReadTime = millis()] *)
  t_print : Z;              (* [millis() - lastSerialPrintTime > 200] *)
  t_print_set : Z;          (* [lastSerialPrintTime = millis()] *)
  t_bpm : Z;                (* [60000 / (millis() - lastBeatTime)] *)
  t_beat : Z;               (* [lastBeatTime = millis()] *)
  t_graph : Z               (* [millis() % 50 == 0] *)
}.

(** *** The senders *)

Definition pulse_doc (s : State) : JsonDocument :=
  [("type", JStr "pulse"); ("value", JInt (pulseValue s)); ("bpm", JInt (BPM s))]%string.

Definition graph_doc (s : State) : JsonDocument :=
  [("type", JStr "graph"); ("value", JInt (pulseValue s))]%string.

Definition env_doc (s : State) : JsonDocument :=
  [("type", JStr "environment"); ("temp", JFloat (temperature s));
   ("pressure", JFloat (pressure s))]%string.

Definition init_doc (s : State) : JsonDocument :=
  [("type", JStr "init"); ("bpm", JInt (BPM s)); ("value", JInt (pulseValue s))]%string.

(** The station-mode sketch builds the same documents in place. *)
Definition sendPulseData (s : State) : State := ws_call (BroadcastTXT (pulse_doc s)) s.
Definition sendGraphData (s : State) : State := ws_call (BroadcastTXT (graph_doc s)) s.
Definition sendEnvData (s : State) : State := ws_call (BroadcastTXT (env_doc s)) s.

(** *** [webSocketEvent] *)

Definition webSocketEvent (k : Sketch) (e : WsEvent) (s : State) : State :=
  match ev_type e with
  | WStype_DISCONNECTED =>
      Serial_out [PStr "["; PInt (ev_num e); PStr "] Client disconnected"; PLn]%string s
  | WStype_CONNECTED =>
      let '(a, b, c, d) := ev_ip e in
      let s1 := Serial_out [PStr "["; PInt (ev_num e); PStr "] Connection from ";
                            PInt a; PStr "."; PInt b; PStr "."; PInt c; PStr ".";
                            PInt d; PLn]%string s in
      match k with
      | Station => ws_call (SendTXT (ev_num e) (init_doc s1)) s1
      | AccessPoint => sendPulseData s1
      | Health => sendEnvData (sendPulseData s1)
      end
  | WStype_TEXT =>
      Serial_out [PStr "["; PInt (ev_num e); PStr "] Received text: ";
                  PStr (ev_payload e); PLn]%string s
  | _ => s
  end.

(** [webSocket.loop()]: the library hands the pending events to the handler
    registered in [setup], one after the other. *)
Definition webSocket_loop (k : Sketch) (evs : list WsEvent) (s : State) : State :=
  fold_left (fun st e => webSocketEvent k e st) evs s.

(** *** [loop] *)

(** "Read environmental data every 2 seconds" (health monitor only). *)
Definition read_environment (k : Sketch) (i : Input) (s : State) : State :=
  match k with
  | Health =>
      if 2000 <? usub (t_env i) (lastEnvReadTime s) then
        let s1 := set_temperature (bmp_temperature i) s in
        let s2 := set_pressure (fdiv (bmp_pressure i) (float_of_Z 100)) s1 in
        let s3 := set_lastEnvReadTime (t_env_set i) s2 in
        sendEnvData s3
      else s
  | _ => s
  end.

(** "Print to Serial Monitor every 200ms". *)
Definition serial_report (k : Sketch) (i : Input) (s : State) : State :=
  if 200 <? usub (t_print i) (lastSerialPrintTime s) then
    let s1 :=
      match k with
      | Health =>
          Serial_out [PStr "Pulse: "; PInt (pulseValue s); PStr " | BPM: ";
                      PInt (BPM s); PStr " | Temp: "; PFloat (temperature s);
                      PStr "°C | Pressure: "; PFloat (pressure s);
                      PStr "hPa"; PLn]%string s
      | _ =>
          Serial_out [PStr "Pulse Value: "; PInt (pulseValue s); PStr " | BPM: ";
                      PInt (BPM s); PLn]%string s
      end in
    set_lastSerialPrintTime (t_print_set i) s1
  else s.

(** "Pulse detection algorithm": the [if (pulseValue > 600)] statement. *)
Definition pulse_detection (i : Input) (s : State) : option State :=
  if 600 <? pulseValue s then
    if negb (pulseDetected s) then
      let s1 := set_pulseDetected true s in
      let beat :=
        if 0 <? lastBeatTime s1 then
          match udiv 60000 (usub (t_bpm i) (lastBeatTime s1)) with
          | Some q =>
              let s2 := set_BPM (to_int q) s1 in
              Some (Serial_out [PStr "Beat detected! BPM: "; PInt (BPM s2); PLn]%string s2)
          | None => None
          end
        else Some s1 in
      match beat with
      | Some s3 => Some (sendPulseData (set_lastBeatTime (t_beat i) s3))
      | None => None
      end
    else Some s
  else
    let s1 := set_pulseDetected false s in
    if t_graph i mod 50 =? 0 then Some (sendGraphData s1) else Some s1.

(** The statements of [loop] before the detection block:
    [webSocket.loop()], [server.handleClient()] (which serves the dashboard
    page and touches no global), the sensor read, and the periodic blocks. *)
Definition loop_prelude (k : Sketch) (i : Input) (s : State) : State :=
  let s1 := webSocket_loop k (events i) s in
  let s2 := set_pulseValue (sample i) s1 in
  let s3 := read_environment k i s2 in
  serial_report k i s3.

(** One iteration of [loop]; [delay(10)] ends it and changes no global.
    [None]: the iteration divided by zero. *)
Definition loop (k : Sketch) (i : Input) (s : State) : option State :=
  pulse_detection i (loop_prelude k i s).

(** Successive iterations. *)
Fixpoint run (k : Sketch) (ins : list Input) (s : State) : option State :=
  match ins with
  | [] => Some s
  | i :: ins' =>
      match loop k i s with
      | Some s' => run k ins' s'
      | None => None
      end
  end.

(** *** Observations *)

(** The detector fires: the sample is above the threshold and the latch is
    clear. *)
Definition rising_edge (i : Input) (s : State) : bool :=
  (600 <? sample i) && negb (pulseDetected s).

Definition is_broadcast_of (type : string) (c : WsCall) : bool :=
  match c with
  | BroadcastTXT doc =>
      match member "type" doc with
      | Some (JStr t) => String.eqb t type
      | _ => false
      end
  | SendTXT _ _ => false
  end.

(** Number of broadcasts of events of the given type. *)
Definition broadcasts (type : string) (l : list WsCall) : nat :=
  List.length (filter (is_broadcast_of type) l).

Definition is_connect (e : WsEvent) : bool :=
  match ev_type e with WStype_CONNECTED => true | _ => false end.

(** The call reaches client [num]: a broadcast goes to every connected
    client. *)
Definition reaches (num : Z) (c : WsCall) : bool :=
  match c with
  | BroadcastTXT _ => true
  | SendTXT n _ => n =? num
  end.

Definition doc_of (c : WsCall) : JsonDocument :=
  match c with
  | BroadcastTXT doc => doc
  | SendTXT _ doc => doc
  end.

(** What the connection handler sends for a new client. *)
Definition snapshot (k : Sketch) (s : State) (num : Z) : list WsCall :=
  match k with
  | Station => [SendTXT num (init_doc s)]
  | AccessPoint => [BroadcastTXT (pulse_doc s)]
  | Health => [BroadcastTXT (pulse_doc s); BroadcastTXT (env_doc s)]
  end.

Definition handler_calls (k : Sketch) (s : State) (e : WsEvent) : list WsCall :=
  if is_connect e then snapshot k s (ev_num e) else [].

(** Pulse broadcasts caused by connections: none in the station-mode
    sketch, one per new client in the other two. *)
Definition connection_pulses (k : Sketch) (evs : list WsEvent) : nat :=
  match k with
  | Station => O
  | _ => List.length (filter is_connect evs)
  end.

(** Two states agree on the globals other than the two output streams. *)
Definition same_globals (s s' : State) : Prop :=
  pulseValue s' = pulseValue s /\ BPM s' = BPM s /\
  temperature s' = temperature s /\ pressure s' = pressure s /\
  pulseDetected s' = pulseDetected s /\ lastBeatTime s' = lastBeatTime s /\
  lastSerialPrintTime s' = lastSerialPrintTime s /\
  lastEnvReadTime s' = lastEnvReadTime s.

(** The periodic environmental read fires in this iteration. *)
Definition env_fires (k : Sketch) (i : Input) (s : State) : bool :=
  match k with
  | Health => 2000 <? usub (t_env i) (lastEnvReadTime s)
  | _ => false
  end.

(** The document the environmental read broadcasts. *)
Definition env_reading_doc (i : Input) : JsonDocument :=
  [("type", JStr "environment"); ("temp", JFloat (bmp_temperature i));
   ("pressure", JFloat (fdiv (bmp_pressure i) (float_of_Z 100)))]%string.

Definition env_calls (k : Sketch) (i : Input) (s : State) : list WsCall :=
  if env_fires k i s then [BroadcastTXT (env_reading_doc i)] else [].

(** What the handler sends for the events of one iteration. *)
Definition handler_traffic (k : Sketch) (i : Input) (s : State) : list WsCall :=
  flat_map (handler_calls k s) (events i).

(** What the detection block broadcasts in an iteration that takes the
    globals from [s] to [s']. *)
Definition detector_calls (i : Input) (s s' : State) : list WsCall :=
  if rising_edge i s then
    [BroadcastTXT [("type", JStr "pulse"); ("value", JInt (sample i));
                   ("bpm", JInt (BPM s'))]%string]
  else if (sample i <=? 600) && (t_graph i mod 50 =? 0) then
    [BroadcastTXT [("type", JStr "graph"); ("value", JInt (sample i))]%string]
  else [].

(** The divisor of the BPM computation of an iteration. *)
Definition divisor (i : Input) (s : State) : Z := usub (t_bpm i) (lastBeatTime s).

(** *** The clock *)

Definition readings (i : Input) : list Z :=
  [t_env i; t_env_set i; t_print i; t_print_set i; t_bpm i; t_beat i; t_graph i].

Definition earliest (i : Input) : Z := fold_right Z.min (t_env i) (readings i).
Definition latest (i : Input) : Z := fold_right Z.max (t_env i) (readings i).

(** Every reading is an [unsigned long]. *)
Definition in_range (i : Input) : bool :=
  forallb (fun t => (0 <=? t) && (t <? 2 ^ 32)) (readings i).

(** The clock strictly advances from each iteration to the next, without
    wrapping around. *)
Fixpoint clock_advances (ins : list Input) : bool :=
  match ins with
  | [] => true
  | a :: ins' =>
      in_range a &&
      match ins' with
      | [] => true
      | b :: _ => (latest a <? earliest b) && clock_advances ins'
      end
  end.

(** *** Sample inputs *)

(** An iteration during which every [millis()] call returns [t]. *)
Definition at_time (t v : Z) (evs : list WsEvent) : Input :=
  {| events := evs; sample := v;
     bmp_temperature := float_of_Z 25; bmp_pressure := float_of_Z 101325;
     t_env := t; t_env_set := t; t_print := t; t_print_set := t;
     t_bpm := t; t_beat := t; t_graph := t |}.

(** Client [num] has just connected. *)
Definition connection (num : Z) : WsEvent :=
  {| ev_num := num; ev_type := WStype_CONNECTED; ev_payload := "";
     ev_ip := (192, 168, 4, 2) |}.

(** The globals after a beat at time [t]: latch set, BPM as given. *)
Definition latched_at (t bpm : Z) : State :=
  set_pulseDetected true (set_BPM bpm (set_lastBeatTime t init)).

(** *** Runs between two beats *)

Definition above (i : Input) : Prop := 600 < sample i.
Definition not_above (i : Input) : Prop := sample i <= 600.

(** Where [lastBeatTime] comes from, after the iterations [ins] have led to
    [s]: it is still zero, or it is the clock that an iteration [b] with a
    sample above the threshold read for the assignment; once the latch is
    clear again, some iteration after [b] had a sample at or below the
    threshold. *)
Definition beat_record (ins : list Input) (s : State) : Prop :=
  lastBeatTime s = 0 \/
  exists pre b post,
    ins = pre ++ b :: post /\ above b /\ lastBeatTime s = t_beat b /\
    (pulseDetected s = false -> Exists not_above post).

(** After an iteration [i] that recorded a beat and led to [s'], the very
    next rising edge computes a BPM from the time recorded at [i]: samples
    above the threshold keep the latch set, samples at or below it reset
    the latch, and the first sample above the threshold after that is the
    next rising edge [j]. *)
Definition next_edge_computes (k : Sketch) (i : Input) (s' : State) : Prop :=
  forall (highs lows : list Input) (j : Input),
    Forall above highs -> Forall not_above lows -> lows <> [] -> above j ->
    (usub (t_bpm j) (t_beat i) <> 0 ->
       exists s'', run k (highs ++ lows ++ [j]) s' = Some s'') /\
    (forall s'', run k (highs ++ lows ++ [j]) s' = Some s'' ->
       BPM s'' = 60000 / usub (t_bpm j) (t_beat i) /\
       lastBeatTime s'' = t_beat j).

(** The globals of a board that has run for 2^32 - 96 ms without a beat. *)
Definition idle_until_wrap : State := set_lastSerialPrintTime 4294967200 init.

(** *** Views of a run *)

(** Upward crossings of the threshold in the samples of [ins], when the
    sample before them was above the threshold or not according to
    [latch]. *)
Fixpoint crossings (latch : bool) (ins : list Input) : nat :=
  match ins with
  | [] => O
  | i :: rest =>
      let high := 600 <? sample i in
      let here := if high && negb latch then 1%nat else 0%nat in
      (here + crossings high rest)%nat
  end.

(** The sample is not above the threshold and the clock read for the graph
    is a multiple of 50. *)
Definition graph_tick (i : Input) : bool :=
  (sample i <=? 600) && (t_graph i mod 50 =? 0).

(** The document of the call is of the given type. *)
Definition has_type (type : string) (c : WsCall) : bool :=
  match member "type" (doc_of c) with
  | Some (JStr t) => String.eqb t type
  | _ => false
  end.

(** The last call of a log that carries a pulse document. *)
Definition last_pulse (l : list WsCall) : option WsCall :=
  find (has_type "pulse") (rev l).

(** The last pulse document sent carries the current [BPM]. *)
Definition bpm_current (s : State) : Prop :=
  match last_pulse (ws s) with
  | Some c => member "bpm" (doc_of c) = Some (JInt (BPM s))
  | None => BPM s = 0
  end.

(** What the beat detector keeps between iterations. *)
Definition detector_view (s : State) : Z * Z * bool * Z :=
  (pulseValue s, BPM s, pulseDetected s, lastBeatTime s).

(** Two iterations deliver the same sample and the same clock to the
    detector. *)
Definition same_beat_input (i j : Input) : Prop :=
  sample i = sample j /\ t_bpm i = t_bpm j /\ t_beat i = t_beat j.

(** The four kinds of message a sketch sends. *)
Definition call_shape (k : Sketch) (c : WsCall) : Prop :=
  (exists v b, c = BroadcastTXT
     [("type", JStr "pulse"); ("value", JInt v); ("bpm", JInt b)]%string) \/
  (exists v, c = BroadcastTXT [("type", JStr "graph"); ("value", JInt v)]%string) \/
  (k = Health /\ exists t p, c = BroadcastTXT
     [("type", JStr "environment"); ("temp", JFloat t);
      ("pressure", JFloat p)]%string) \/
  (k = Station /\ exists n b v, c = SendTXT n
     [("type", JStr "init"); ("bpm", JInt b); ("value", JInt v)]%string).

(** *** The periodic blocks *)

(** The serial report runs in this iteration. *)
Definition report_fires (i : Input) (s : State) : bool :=
  200 <? usub (t_print i) (lastSerialPrintTime s).

(** How often the serial report, and the environmental read, run during a
    run. *)
Fixpoint serial_reports (k : Sketch) (ins : list Input) (s : State) : nat :=
  match ins with
  | [] => O
  | i :: rest =>
      match loop k i s with
      | Some s' =>
          ((if report_fires i s then 1 else 0) + serial_reports k rest s')%nat
      | None => O
      end
  end.

Fixpoint env_reads (k : Sketch) (ins : list Input) (s : State) : nat :=
  match ins with
  | [] => O
  | i :: rest =>
      match loop k i s with
      | Some s' =>
          ((if env_fires k i s then 1 else 0) + env_reads k rest s')%nat
      | None => O
      end
  end.

(** Within an iteration the clock does not go back between the test of a
    periodic block and the assignment that follows it. *)
Definition clock_ordered (i : Input) : bool :=
  (t_env i <=? t_env_set i) && (t_print i <=? t_print_set i).

End Pulse.

(* ================================================================== *)
(** ** The dashboard page *)
(* ================================================================== *)

(** The script of the page that [handleRoot] serves: its [ws.onmessage]
    handler, on the documents the sketches send. Drawing on the canvas and
    the pulse animation leave no state behind and are not modelled; the text
    of an element is kept as the value assigned to it. *)
Module Dashboard.

Import Pulse.

(** A JavaScript value read from a parsed document: a missing member reads
    as [undefined]. *)
Inductive JsValue :=
| Undefined
| Val (v : JsonValue).

Definition get (key : string) (data : JsonDocument) : JsValue :=
  match member key data with
  | Some v => Val v
  | None => Undefined
  end.

(** [x.toFixed(1)] is defined on numbers only. *)
Definition is_number (v : JsValue) : bool :=
  match v with
  | Val (JInt _) => true
  | Val (JFloat _) => true
  | _ => false
  end.

Definition maxPoints : nat := 200.

(** The elements the handler writes ([None]: the text of the served page),
    the graph's points, and the number of beat animations started. The page
    of the health monitor also has the two environment elements. *)
Record Page := {
  bpmElement : option JsValue;
  pulseValueElement : option JsValue;
  tempElement : option JsValue;       (* shown with one decimal and a unit *)
  pressureElement : option JsValue;   (* shown with one decimal and a unit *)
  points : list JsValue;
  beats : nat
}.

Definition served : Page :=
  {| bpmElement := None; pulseValueElement := None; tempElement := None;
     pressureElement := None; points := []; beats := O |}.

(** [points.push(v); if (points.length > maxPoints) points.shift();] *)
Definition push_point (v : JsValue) (pts : list JsValue) : list JsValue :=
  let pts' := pts ++ [v] in
  if (maxPoints <? List.length pts')%nat then tl pts' else pts'.

(** [ws.onmessage] on a message whose text parses to [data]. An exception
    ([undefined.toFixed]) ends the handler in its [catch]. *)
Definition onmessage (k : Sketch) (data : JsonDocument) (pg : Page) : Page :=
  match get "type" data with
  | Val (JStr t) =>
      if String.eqb t "pulse" then
        {| bpmElement := Some (get "bpm" data);
           pulseValueElement := Some (get "value" data);
           tempElement := tempElement pg; pressureElement := pressureElement pg;
           points := points pg; beats := S (beats pg) |}
      else if match k with Health => String.eqb t "environment" | _ => false end then
        if is_number (get "temp" data) then
          let pg1 :=
            {| bpmElement := bpmElement pg;
               pulseValueElement := pulseValueElement pg;
               tempElement := Some (get "temp" data);
               pressureElement := pressureElement pg;
               points := points pg; beats := beats pg |} in
          if is_number (get "pressure" data) then
            {| bpmElement := bpmElement pg1;
               pulseValueElement := pulseValueElement pg1;
               tempElement := tempElement pg1;
               pressureElement := Some (get "pressure" data);
               points := points pg1; beats := beats pg1 |}
          else pg1
        else pg
      else if String.eqb t "graph" then
        {| bpmElement := bpmElement pg;
           pulseValueElement := pulseValueElement pg;
           tempElement := tempElement pg; pressureElement := pressureElement pg;
           points := push_point (get "value" data) (points pg);
           beats := beats pg |}
      else pg
  | _ => pg
  end.

(** The messages arrive in the order they were sent. *)
Definition receive (k : Sketch) (msgs : list JsonDocument) (pg : Page) : Page :=
  fold_left (fun p data => onmessage k data p) msgs pg.

(** What client [num] receives of a log of calls. *)
Definition delivered (num : Z) (l : list WsCall) : list JsonDocument :=
  map doc_of (filter (reaches num) l).

(** The values of the graph messages among [msgs]. *)
Definition graph_values (msgs : list JsonDocument) : list JsValue :=
  flat_map (fun data =>
    match get "type" data with
    | Val (JStr t) => if String.eqb t "graph" then [get "value" data] else []
    | _ => []
    end) msgs.

(** The last [maxPoints] elements of a list. *)
Definition last_points (l : list JsValue) : list JsValue :=
  skipn (List.length l - maxPoints) l.

(** The message is a pulse message. *)
Definition is_pulse (data : JsonDocument) : bool :=
  match get "type" data with
  | Val (JStr t) => String.eqb t "pulse"
  | _ => false
  end.

(** The page after the snapshot that the handler of sketch [k] sends for a
    new client, in the globals [s]. *)
Definition page_after_snapshot (k : Sketch) (s : State) (pg : Page) : Page :=
  match k with
  | Station => pg
  | AccessPoint =>
      {| bpmElement := Some (Val (JInt (BPM s)));
         pulseValueElement := Some (Val (JInt (pulseValue s)));
         tempElement := tempElement pg; pressureElement := pressureElement pg;
         points := points pg; beats := S (beats pg) |}
  | Health =>
      {| bpmElement := Some (Val (JInt (BPM s)));
         pulseValueElement := Some (Val (JInt (pulseValue s)));
         tempElement := Some (Val (JFloat (temperature s)));
         pressureElement := Some (Val (JFloat (pressure s)));
         points := points pg; beats := S (beats pg) |}
  end.

End Dashboard.

(* ================================================================== *)
(** ** Properties of the pulse-monitor sketches *)
(* ================================================================== *)

Import Pulse.

(** *** Machine arithmetic *)

Lemma usub_exact (a b : Z) :
  0 <= b -> b <= a -> a < 2 ^ 32 -> usub a b = a - b.
Proof.
  intros Hb Hab Ha. unfold usub, u32.
  apply Z.mod_small. lia.
Qed.

Lemma usub_range (a b : Z) : 0 <= usub a b < 2 ^ 32.
Proof.
  unfold usub, u32. apply Z.mod_pos_bound. lia.
Qed.

(** The quotient [60000 / d] fits in an [int]. *)
Lemma to_int_quotient (d : Z) : 0 < d -> to_int (60000 / d) = 60000 / d.
Proof.
  intros Hd.
  assert (H0 : 0 <= 60000 / d) by (apply Z.div_pos; lia).
  assert (H1 : 60000 / d <= 60000) by (apply Z.div_le_upper_bound; nia).
  unfold to_int.
  rewrite Z.mod_small by lia. lia.
Qed.

Lemma udiv_defined (a b : Z) : b <> 0 -> udiv a b = Some (a / b).
Proof.
  intros Hb. unfold udiv.
  destruct (Z.eqb_spec b 0); [contradiction | reflexivity].
Qed.

Lemma udiv_some (a b q : Z) : udiv a b = Some q -> b <> 0 /\ q = a / b.
Proof.
  unfold udiv. destruct (Z.eqb_spec b 0); intros H; [discriminate |].
  injection H as <-. split; [assumption | reflexivity].
Qed.

(** *** The handler and the prelude leave the detector's variables alone *)

Lemma same_globals_refl (s : State) : same_globals s s.
Proof. repeat split. Qed.

Lemma same_globals_trans (s1 s2 s3 : State) :
  same_globals s1 s2 -> same_globals s2 s3 -> same_globals s1 s3.
Proof.
  unfold same_globals. intros H12 H23.
  decompose [and] H12. decompose [and] H23.
  repeat split; congruence.
Qed.

Lemma snapshot_same_globals (k : Sketch) (s s' : State) (num : Z) :
  same_globals s s' -> snapshot k s' num = snapshot k s num.
Proof.
  unfold same_globals. intros H. decompose [and] H.
  unfold snapshot, init_doc, pulse_doc, env_doc.
  destruct k; congruence.
Qed.

Lemma webSocketEvent_globals (k : Sketch) (e : WsEvent) (s : State) :
  same_globals s (webSocketEvent k e s).
Proof.
  unfold webSocketEvent.
  destruct (ev_type e); try apply same_globals_refl.
  - repeat split.
  - destruct (ev_ip e) as [[[a b] c] d]. destruct k; repeat split.
  - repeat split.
Qed.

Lemma webSocketEvent_ws (k : Sketch) (e : WsEvent) (s : State) :
  ws (webSocketEvent k e s) = ws s ++ handler_calls k s e.
Proof.
  unfold webSocketEvent, handler_calls, is_connect.
  destruct (ev_type e); simpl; try (symmetry; apply app_nil_r).
  destruct (ev_ip e) as [[[a b] c] d].
  destruct k; simpl; try reflexivity.
  rewrite <- app_assoc. reflexivity.
Qed.

Lemma webSocket_loop_globals (k : Sketch) (evs : list WsEvent) (s : State) :
  same_globals s (webSocket_loop k evs s).
Proof.
  unfold webSocket_loop. revert s.
  induction evs as [| e evs IH]; intros s; simpl.
  - apply same_globals_refl.
  - eapply same_globals_trans; [apply (webSocketEvent_globals k e) | apply IH].
Qed.

Lemma handler_calls_same_globals (k : Sketch) (s s' : State) (e : WsEvent) :
  same_globals s s' -> handler_calls k s' e = handler_calls k s e.
Proof.
  intros H. unfold handler_calls.
  destruct (is_connect e); [apply snapshot_same_globals; assumption | reflexivity].
Qed.

Lemma webSocket_loop_ws (k : Sketch) (evs : list WsEvent) (s : State) :
  ws (webSocket_loop k evs s) = ws s ++ flat_map (handler_calls k s) evs.
Proof.
  unfold webSocket_loop. revert s.
  induction evs as [| e evs IH]; intros s; simpl.
  - symmetry. apply app_nil_r.
  - rewrite IH, webSocketEvent_ws, <- app_assoc. f_equal. f_equal.
    apply flat_map_ext. intros e'.
    apply handler_calls_same_globals, webSocketEvent_globals.
Qed.

Lemma read_environment_spec (k : Sketch) (i : Input) (s : State) :
  let s' := read_environment k i s in
  pulseValue s' = pulseValue s /\ BPM s' = BPM s /\
  pulseDetected s' = pulseDetected s /\ lastBeatTime s' = lastBeatTime s /\
  lastSerialPrintTime s' = lastSerialPrintTime s /\
  ws s' = ws s ++ env_calls k i s /\
  (env_fires k i s = true ->
     temperature s' = bmp_temperature i /\
     pressure s' = fdiv (bmp_pressure i) (float_of_Z 100) /\
     lastEnvReadTime s' = t_env_set i) /\
  (env_fires k i s = false ->
     temperature s' = temperature s /\ pressure s' = pressure s /\
     lastEnvReadTime s' = lastEnvReadTime s).
Proof.
  unfold read_environment, env_calls, env_fires.
  destruct k; simpl;
    try (repeat split; try discriminate; symmetry; apply app_nil_r).
  destruct (2000 <? usub (t_env i) (lastEnvReadTime s)); simpl.
  - repeat split; discriminate.
  - repeat split; try discriminate. symmetry. apply app_nil_r.
Qed.

Lemma serial_report_globals (k : Sketch) (i : Input) (s : State) :
  let s' := serial_report k i s in
  pulseValue s' = pulseValue s /\ BPM s' = BPM s /\
  temperature s' = temperature s /\ pressure s' = pressure s /\
  pulseDetected s' = pulseDetected s /\ lastBeatTime s' = lastBeatTime s /\
  lastEnvReadTime s' = lastEnvReadTime s /\ ws s' = ws s.
Proof.
  unfold serial_report.
  destruct (200 <? usub (t_print i) (lastSerialPrintTime s)); [| repeat split].
  destruct k; repeat split.
Qed.

(** The state in which the detection block starts. *)
Lemma loop_prelude_spec (k : Sketch) (i : Input) (s : State) :
  let p := loop_prelude k i s in
  pulseValue p = sample i /\ BPM p = BPM s /\
  pulseDetected p = pulseDetected s /\ lastBeatTime p = lastBeatTime s /\
  ws p = ws s ++ handler_traffic k i s ++ env_calls k i s /\
  (env_fires k i s = true ->
     temperature p = bmp_temperature i /\
     pressure p = fdiv (bmp_pressure i) (float_of_Z 100) /\
     lastEnvReadTime p = t_env_set i) /\
  (env_fires k i s = false ->
     temperature p = temperature s /\ pressure p = pressure s /\
     lastEnvReadTime p = lastEnvReadTime s).
Proof.
  unfold loop_prelude, handler_traffic.
  set (s1 := webSocket_loop k (events i) s).
  set (s2 := set_pulseValue (sample i) s1).
  set (s3 := read_environment k i s2).
  pose proof (webSocket_loop_globals k (events i) s) as G. fold s1 in G.
  pose proof (webSocket_loop_ws k (events i) s) as W. fold s1 in W.
  unfold same_globals in G. decompose [and] G. clear G.
  pose proof (read_environment_spec k i s2) as E. fold s3 in E. simpl in E.
  destruct E as (E1 & E2 & E3 & E4 & E5 & E6 & E7 & E8).
  pose proof (serial_report_globals k i s3) as R. simpl in R.
  destruct R as (R1 & R2 & R3 & R4 & R5 & R6 & R7 & R8).
  assert (F : env_fires k i s2 = env_fires k i s).
  { unfold env_fires. destruct k; try reflexivity. simpl. congruence. }
  assert (C : env_calls k i s2 = env_calls k i s).
  { unfold env_calls. rewrite F. reflexivity. }
  simpl.
  split; [congruence |]. split; [congruence |].
  split; [congruence |]. split; [congruence |].
  split; [rewrite R8, E6, C; simpl; rewrite W, <- app_assoc; reflexivity |].
  split; intros Hf; rewrite <- F in Hf.
  - destruct (E7 Hf) as (A1 & A2 & A3). repeat split; congruence.
  - destruct (E8 Hf) as (A1 & A2 & A3). simpl in A1, A2, A3.
    repeat split; congruence.
Qed.

(** *** The detection block, case by case *)

Lemma detection_low (i : Input) (p : State) :
  pulseValue p <= 600 ->
  pulse_detection i p =
    Some (if t_graph i mod 50 =? 0
          then sendGraphData (set_pulseDetected false p)
          else set_pulseDetected false p).
Proof.
  intros H. unfold pulse_detection.
  destruct (Z.ltb_spec 600 (pulseValue p)); [lia |].
  destruct (t_graph i mod 50 =? 0); reflexivity.
Qed.

Lemma detection_latched (i : Input) (p : State) :
  600 < pulseValue p -> pulseDetected p = true -> pulse_detection i p = Some p.
Proof.
  intros H L. unfold pulse_detection.
  destruct (Z.ltb_spec 600 (pulseValue p)); [| lia].
  rewrite L. reflexivity.
Qed.

Lemma detection_first (i : Input) (p : State) :
  600 < pulseValue p -> pulseDetected p = false -> lastBeatTime p <= 0 ->
  pulse_detection i p =
    Some (sendPulseData (set_lastBeatTime (t_beat i) (set_pulseDetected true p))).
Proof.
  intros H L T. unfold pulse_detection.
  destruct (Z.ltb_spec 600 (pulseValue p)); [| lia].
  rewrite L. simpl.
  destruct (Z.ltb_spec 0 (lastBeatTime p)); [lia | reflexivity].
Qed.

Lemma detection_beat (i : Input) (p : State) :
  600 < pulseValue p -> pulseDetected p = false -> 0 < lastBeatTime p ->
  pulse_detection i p =
    match udiv 60000 (divisor i p) with
    | Some q =>
        Some (sendPulseData (set_lastBeatTime (t_beat i)
               (Serial_out [PStr "Beat detected! BPM: "; PInt (to_int q); PLn]%string
                  (set_BPM (to_int q) (set_pulseDetected true p)))))
    | None => None
    end.
Proof.
  intros H L T. unfold pulse_detection, divisor.
  destruct (Z.ltb_spec 600 (pulseValue p)); [| lia].
  rewrite L. simpl.
  destruct (Z.ltb_spec 0 (lastBeatTime p)); [| lia].
  destruct (udiv 60000 (usub (t_bpm i) (lastBeatTime p))); reflexivity.
Qed.

(** *** One iteration of [loop], case by case *)

Ltac prelude_facts k i s :=
  let P := fresh "P" in
  pose proof (loop_prelude_spec k i s) as P; cbv zeta in P;
  destruct P as (Pv & Pb & Pd & Pt & Pw & Pfire & Pquiet).

(** A sample at or below the threshold. *)
Lemma loop_low (k : Sketch) (i : Input) (s : State) :
  sample i <= 600 ->
  exists s', loop k i s = Some s' /\
    pulseDetected s' = false /\ BPM s' = BPM s /\
    lastBeatTime s' = lastBeatTime s.
Proof.
  intros H. prelude_facts k i s. unfold loop.
  rewrite detection_low by lia.
  eexists. split; [reflexivity |].
  destruct (t_graph i mod 50 =? 0); simpl; repeat split; assumption.
Qed.

(** A sample above the threshold while the latch is set. *)
Lemma loop_latched (k : Sketch) (i : Input) (s : State) :
  600 < sample i -> pulseDetected s = true ->
  loop k i s = Some (loop_prelude k i s).
Proof.
  intros H L. prelude_facts k i s. unfold loop.
  apply detection_latched; [lia | congruence].
Qed.

(** A rising edge with no earlier beat on record. *)
Lemma loop_first (k : Sketch) (i : Input) (s : State) :
  600 < sample i -> pulseDetected s = false -> lastBeatTime s <= 0 ->
  exists s', loop k i s = Some s' /\
    pulseDetected s' = true /\ BPM s' = BPM s /\
    lastBeatTime s' = t_beat i.
Proof.
  intros H L T. prelude_facts k i s. unfold loop.
  rewrite detection_first by (lia || congruence).
  eexists. split; [reflexivity |]. simpl. repeat split; assumption.
Qed.

(** A rising edge with an earlier beat on record. *)
Lemma loop_beat (k : Sketch) (i : Input) (s : State) :
  600 < sample i -> pulseDetected s = false -> 0 < lastBeatTime s ->
  (divisor i s = 0 /\ loop k i s = None) \/
  (divisor i s <> 0 /\
   exists s', loop k i s = Some s' /\
     pulseDetected s' = true /\ BPM s' = 60000 / divisor i s /\
     lastBeatTime s' = t_beat i).
Proof.
  intros H L T. prelude_facts k i s. unfold loop.
  rewrite detection_beat by (lia || congruence).
  assert (D : divisor i (loop_prelude k i s) = divisor i s)
    by (unfold divisor; congruence).
  rewrite D.
  destruct (Z.eq_dec (divisor i s) 0) as [Z0 | NZ].
  - left. split; [assumption |]. rewrite Z0. reflexivity.
  - right. split; [assumption |]. rewrite udiv_defined by assumption.
    eexists. split; [reflexivity |]. simpl.
    repeat split.
    apply to_int_quotient.
    pose proof (usub_range (t_bpm i) (lastBeatTime s)). unfold divisor in NZ |- *. lia.
Qed.

(** The iteration fails exactly when it divides by zero. *)
Lemma loop_none (k : Sketch) (i : Input) (s : State) :
  loop k i s = None <->
  (rising_edge i s = true /\ 0 < lastBeatTime s /\ divisor i s = 0).
Proof.
  unfold rising_edge. split.
  - intros N.
    destruct (Z.ltb_spec 600 (sample i)) as [Hi | Lo].
    + destruct (pulseDetected s) eqn:L.
      * rewrite loop_latched in N by assumption. discriminate.
      * destruct (Z_lt_le_dec 0 (lastBeatTime s)) as [T | T].
        -- destruct (loop_beat k i s Hi L T) as [(Z0 & _) | (_ & s' & E & _)].
           ++ repeat split; assumption.
           ++ congruence.
        -- destruct (loop_first k i s Hi L T) as (s' & E & _). congruence.
    + destruct (loop_low k i s Lo) as (s' & E & _). congruence.
  - intros (R & T & Z0).
    apply andb_true_iff in R. destruct R as (Hi & L).
    apply Z.ltb_lt in Hi. apply negb_true_iff in L.
    destruct (loop_beat k i s Hi L T) as [(_ & N) | (NZ & _)];
      [assumption | contradiction].
Qed.

(** The WebSocket traffic of an iteration: the handler's, then the
    environmental read's, then the detector's. *)
Lemma loop_ws (k : Sketch) (i : Input) (s s' : State) :
  loop k i s = Some s' ->
  ws s' = ws s ++ handler_traffic k i s ++ env_calls k i s ++ detector_calls i s s'.
Proof.
  intros E. prelude_facts k i s. unfold loop in E.
  unfold detector_calls, rising_edge.
  assert (W : forall l, ws s' = ws (loop_prelude k i s) ++ l ->
              ws s' = ws s ++ handler_traffic k i s ++ env_calls k i s ++ l).
  { intros l ->. rewrite Pw, <- !app_assoc. reflexivity. }
  apply W. clear W.
  destruct (Z.ltb_spec 600 (sample i)) as [Hi | Lo].
  - destruct (Z.leb_spec (sample i) 600); [lia |].
    destruct (pulseDetected s) eqn:L; simpl.
    + rewrite detection_latched in E by (lia || congruence).
      injection E as <-. symmetry. apply app_nil_r.
    + destruct (Z_lt_le_dec 0 (lastBeatTime s)) as [T | T].
      * rewrite detection_beat in E by (lia || congruence).
        destruct (udiv 60000 (divisor i (loop_prelude k i s))); [| discriminate].
        injection E as <-. simpl. unfold pulse_doc. simpl. rewrite Pv. reflexivity.
      * rewrite detection_first in E by (lia || congruence).
        injection E as <-. simpl. unfold pulse_doc. simpl. rewrite Pv. reflexivity.
  - rewrite detection_low in E by lia.
    destruct (Z.leb_spec (sample i) 600); [| lia]. simpl.
    destruct (t_graph i mod 50 =? 0); injection E as <-; simpl.
    + unfold graph_doc. simpl. rewrite Pv. reflexivity.
    + symmetry. apply app_nil_r.
Qed.

(** The detection block touches neither the environmental globals nor
    the sample. *)
Lemma loop_environment (k : Sketch) (i : Input) (s s' : State) :
  loop k i s = Some s' ->
  temperature s' = temperature (loop_prelude k i s) /\
  pressure s' = pressure (loop_prelude k i s) /\
  lastEnvReadTime s' = lastEnvReadTime (loop_prelude k i s) /\
  pulseValue s' = sample i.
Proof.
  intros E. prelude_facts k i s. unfold loop in E.
  rewrite <- Pv.
  unfold pulse_detection in E.
  destruct (600 <? pulseValue (loop_prelude k i s)).
  - destruct (pulseDetected (loop_prelude k i s)); simpl in E.
    + injection E as <-. repeat split.
    + destruct (0 <? lastBeatTime (loop_prelude k i s)).
      * destruct (udiv 60000 _); [| discriminate].
        injection E as <-. repeat split.
      * injection E as <-. repeat split.
  - destruct (t_graph i mod 50 =? 0); injection E as <-; repeat split.
Qed.

(* ------------------------------------------------------------------ *)
(** *** Peak-to-BPM conversion *)

(** C1. Peak-to-BPM conversion. In each of the three sketches, when the
    sample is above the threshold of 600, the latch is clear and
    [lastBeatTime > 0], the iteration completes unless the divisor is zero,
    and a completed iteration leaves in [BPM] the quotient of 60000 by
    [millis() - lastBeatTime] (an [unsigned long] difference, with the
    clock as read for the division) and in [lastBeatTime] the clock as read
    for the assignment that follows. *)
Theorem peak_to_bpm (k : Sketch) (i : Input) (s : State) :
  600 < sample i -> pulseDetected s = false -> 0 < lastBeatTime s ->
  (usub (t_bpm i) (lastBeatTime s) <> 0 -> exists s', loop k i s = Some s') /\
  (forall s', loop k i s = Some s' ->
     BPM s' = 60000 / usub (t_bpm i) (lastBeatTime s) /\
     lastBeatTime s' = t_beat i).
Proof.
  intros Hi L T.
  destruct (loop_beat k i s Hi L T) as [(Z0 & N) | (NZ & s1 & E & _ & B & LB)];
    unfold divisor in *.
  - split; [intros NZ; contradiction |].
    intros s' E. congruence.
  - split; [intros _; exists s1; assumption |].
    intros s' E'. assert (s' = s1) by congruence. subst s'.
    split; assumption.
Qed.

Lemma peak_to_bpm_witness :
  exists s', loop Station (at_time 2000 700 []) (set_lastBeatTime 1000 init) = Some s' /\
             BPM s' = 60 /\ lastBeatTime s' = 2000.
Proof.
  destruct (peak_to_bpm Station (at_time 2000 700 []) (set_lastBeatTime 1000 init))
    as [D R]; [reflexivity | reflexivity | reflexivity |].
  destruct D as [s' E]; [vm_compute; discriminate |].
  exists s'. split; [exact E |].
  destruct (R s' E) as [B T]. split; [rewrite B; reflexivity | exact T].
Defined.

(* ------------------------------------------------------------------ *)
(** *** Successive iterations *)

Lemma run_app (k : Sketch) (a b : list Input) (s : State) :
  run k (a ++ b) s =
  match run k a s with
  | Some s' => run k b s'
  | None => None
  end.
Proof.
  revert s. induction a as [| i a IH]; intros s; simpl; [reflexivity |].
  destruct (loop k i s); [apply IH | reflexivity].
Qed.

Lemma broadcasts_app (type : string) (a b : list WsCall) :
  broadcasts type (a ++ b) = (broadcasts type a + broadcasts type b)%nat.
Proof.
  unfold broadcasts. rewrite filter_app, length_app. reflexivity.
Qed.

Lemma broadcasts_handler_pulse (k : Sketch) (s : State) (evs : list WsEvent) :
  broadcasts "pulse" (flat_map (handler_calls k s) evs) = connection_pulses k evs.
Proof.
  assert (G : forall evs',
             broadcasts "pulse" (flat_map (handler_calls k s) evs') =
             match k with
             | Station => O
             | _ => List.length (filter is_connect evs')
             end).
  { induction evs' as [| e evs' IH]; simpl.
    - destruct k; reflexivity.
    - rewrite broadcasts_app, IH. unfold handler_calls.
      destruct (is_connect e); destruct k; reflexivity. }
  apply G.
Qed.

Lemma broadcasts_handler_graph (k : Sketch) (s : State) (evs : list WsEvent) :
  broadcasts "graph" (flat_map (handler_calls k s) evs) = O.
Proof.
  induction evs as [| e evs IH]; simpl; [reflexivity |].
  rewrite broadcasts_app, IH. unfold handler_calls.
  destruct (is_connect e); destruct k; reflexivity.
Qed.

Lemma broadcasts_env (k : Sketch) (i : Input) (s : State) :
  broadcasts "pulse" (env_calls k i s) = O /\
  broadcasts "graph" (env_calls k i s) = O.
Proof.
  unfold env_calls. destruct (env_fires k i s); split; reflexivity.
Qed.

(** Samples above the threshold keep a set latch set and change neither
    [BPM] nor [lastBeatTime]; the only pulse events broadcast meanwhile are
    those of the connection handler. *)
Lemma run_latched (k : Sketch) (highs : list Input) (s : State) :
  pulseDetected s = true -> Forall above highs ->
  exists s', run k highs s = Some s' /\
    pulseDetected s' = true /\ BPM s' = BPM s /\
    lastBeatTime s' = lastBeatTime s /\
    broadcasts "pulse" (ws s') =
      (broadcasts "pulse" (ws s) + connection_pulses k (flat_map events highs))%nat.
Proof.
  intros L F. revert s L.
  induction F as [| i highs Hi F IH]; intros s L; simpl.
  - exists s. split; [reflexivity |]. split; [assumption |].
    split; [reflexivity |]. split; [reflexivity |].
    unfold connection_pulses. destruct k; simpl; symmetry; apply Nat.add_0_r.
  - unfold above in Hi.
    pose proof (loop_latched k i s Hi L) as E. rewrite E.
    prelude_facts k i s.
    destruct (IH (loop_prelude k i s)) as (s' & R & L' & B' & T' & W');
      [congruence |].
    exists s'. split; [assumption |].
    split; [assumption |]. split; [congruence |]. split; [congruence |].
    rewrite W', Pw, !broadcasts_app.
    unfold handler_traffic. rewrite broadcasts_handler_pulse.
    destruct (broadcasts_env k i s) as (-> & _).
    unfold connection_pulses.
    destruct k; [lia | |]; rewrite filter_app, length_app; lia.
Qed.

(** Samples at or below the threshold change neither [BPM] nor
    [lastBeatTime], and the first of them resets the latch. *)
Lemma run_quiet (k : Sketch) (lows : list Input) (s : State) :
  Forall not_above lows ->
  exists s', run k lows s = Some s' /\
    BPM s' = BPM s /\ lastBeatTime s' = lastBeatTime s /\
    (lows <> [] -> pulseDetected s' = false).
Proof.
  intros F. revert s.
  induction F as [| i lows Lo F IH]; intros s; simpl.
  - exists s. repeat split. intros N. contradiction.
  - destruct (loop_low k i s Lo) as (s1 & E & L1 & B1 & T1). rewrite E.
    destruct (IH s1) as (s' & R & B' & T' & L').
    exists s'. split; [assumption |].
    split; [congruence |]. split; [congruence |].
    intros _. destruct lows as [| i' lows'].
    + simpl in R. injection R as <-. assumption.
    + apply L'. discriminate.
Qed.

(* ------------------------------------------------------------------ *)
(** *** The first beat *)

(** C2 (as amended). First-beat edge case. A rising edge processed while
    [lastBeatTime == 0] leaves [BPM] at its prior value and sets
    [lastBeatTime] to the clock as read for that assignment; provided this
    reading is not zero, the very next rising edge computes a BPM from it. *)
Theorem first_beat (k : Sketch) (i : Input) (s : State) :
  lastBeatTime s = 0 -> pulseDetected s = false -> 600 < sample i ->
  exists s', loop k i s = Some s' /\
    BPM s' = BPM s /\ lastBeatTime s' = t_beat i /\
    (0 < t_beat i -> next_edge_computes k i s').
Proof.
  intros T L Hi.
  destruct (loop_first k i s Hi L) as (s' & E & L' & B' & T'); [lia |].
  exists s'. split; [assumption |]. split; [assumption |]. split; [assumption |].
  intros Pos highs lows j Fh Fl Nl Hj.
  destruct (run_latched k highs s' L' Fh) as (s1 & R1 & L1 & B1 & T1 & _).
  destruct (run_quiet k lows s1 Fl) as (s2 & R2 & B2 & T2 & L2).
  specialize (L2 Nl).
  assert (R : run k (highs ++ lows ++ [j]) s' = loop k j s2).
  { rewrite run_app, R1, run_app, R2. simpl. destruct (loop k j s2); reflexivity. }
  rewrite R.
  assert (T0 : lastBeatTime s2 = t_beat i) by congruence.
  rewrite <- T0.
  assert (Pos2 : 0 < lastBeatTime s2) by lia.
  destruct (loop_beat k j s2 Hj L2 Pos2)
    as [(Z0 & N) | (NZ & s3 & E3 & _ & B3 & T3)]; unfold divisor in *.
  - split; [intros NZ; contradiction |].
    intros s'' E''. congruence.
  - split; [intros _; exists s3; assumption |].
    intros s'' E''. assert (s'' = s3) by congruence. subst s''.
    split; assumption.
Qed.

Lemma first_beat_witness :
  exists s' s'',
    loop Station (at_time 5000 700 []) init = Some s' /\
    run Station [at_time 5010 100 []; at_time 6000 700 []] s' = Some s'' /\
    BPM s'' = 60.
Proof.
  destruct (first_beat Station (at_time 5000 700 []) init)
    as (s' & E & _ & _ & N); [reflexivity | reflexivity | reflexivity |].
  assert (Pos : 0 < t_beat (at_time 5000 700 [])) by reflexivity.
  destruct (N Pos [] [at_time 5010 100 []] (at_time 6000 700 [])) as [D R].
  - constructor.
  - constructor; [unfold not_above; simpl; lia | constructor].
  - discriminate.
  - reflexivity.
  - destruct D as [s'' E'']; [vm_compute; discriminate |].
    exists s', s''. split; [exact E |]. split; [exact E'' |].
    destruct (R s'' E'') as [B _]. rewrite B. reflexivity.
Defined.

(** The claim as first stated fails when the clock reads zero at the first
    beat, as it does in the millisecond in which the 32-bit counter wraps
    around: the guard [lastBeatTime > 0] then still sees "no earlier beat"
    at the next rising edge, which leaves [BPM] at 0 instead of
    60000 / 1000. *)
Lemma first_beat_at_clock_zero :
  lastBeatTime idle_until_wrap = 0 /\
  pulseDetected idle_until_wrap = false /\
  600 < sample (at_time 0 700 []) /\
  exists s', loop Station (at_time 0 700 []) idle_until_wrap = Some s' /\
             ~ next_edge_computes Station (at_time 0 700 []) s'.
Proof.
  split; [reflexivity |]. split; [reflexivity |]. split; [reflexivity |].
  eexists. split; [vm_compute; reflexivity |].
  intros N.
  destruct (N [] [at_time 10 100 []] (at_time 1000 700 [])) as [_ R].
  - constructor.
  - constructor; [unfold not_above; simpl; lia | constructor].
  - discriminate.
  - reflexivity.
  - destruct (R _ eq_refl) as [B _]. vm_compute in B. discriminate.
Qed.

(* ------------------------------------------------------------------ *)
(** *** The latch *)

(** C3 (as amended). Latch reset and debounce. A sample at or below the
    threshold resets the latch. While the latch is set and the samples stay
    above the threshold, the latch stays set, [BPM] and [lastBeatTime] keep
    their values and the detector broadcasts nothing: the pulse events
    broadcast meanwhile are exactly those the connection handler sends (none
    in the station-mode sketch, one per new client in the other two). *)
Theorem latch_debounce (k : Sketch) :
  (forall i s, sample i <= 600 ->
     exists s', loop k i s = Some s' /\ pulseDetected s' = false) /\
  (forall highs s, pulseDetected s = true -> Forall above highs ->
     exists s', run k highs s = Some s' /\
       pulseDetected s' = true /\ BPM s' = BPM s /\
       lastBeatTime s' = lastBeatTime s /\
       broadcasts "pulse" (ws s') =
         (broadcasts "pulse" (ws s) +
          connection_pulses k (flat_map events highs))%nat).
Proof.
  split.
  - intros i s Lo.
    destruct (loop_low k i s Lo) as (s' & E & L & _).
    exists s'. split; assumption.
  - intros highs s L F. apply run_latched; assumption.
Qed.

Lemma latch_debounce_witness :
  (exists s', loop Station (at_time 1020 100 []) (latched_at 1000 72) = Some s' /\
              pulseDetected s' = false) /\
  (exists s', run Station [at_time 1010 700 []; at_time 1020 650 []]
                (latched_at 1000 72) = Some s' /\
              BPM s' = 72 /\ lastBeatTime s' = 1000 /\
              broadcasts "pulse" (ws s') = O).
Proof.
  destruct (latch_debounce Station) as [Reset Hold]. split.
  - apply Reset. simpl. lia.
  - destruct (Hold [at_time 1010 700 []; at_time 1020 650 []] (latched_at 1000 72))
      as (s' & R & _ & B & T & W).
    + reflexivity.
    + repeat constructor.
    + exists s'. split; [exact R |]. split; [exact B |]. split; [exact T |].
      exact W.
Defined.

(** The claim as first stated fails in the health monitor (and in the
    access-point sketch): a client that connects while the latch is set makes
    the connection handler broadcast a pulse event. *)
Lemma pulse_broadcast_while_latched :
  pulseDetected (latched_at 1000 72) = true /\
  600 < sample (at_time 1010 700 [connection 0]) /\
  broadcasts "pulse" (ws (latched_at 1000 72)) = O /\
  exists s', loop Health (at_time 1010 700 [connection 0]) (latched_at 1000 72) = Some s' /\
             pulseDetected s' = true /\
             broadcasts "pulse" (ws s') = 1%nat.
Proof.
  split; [reflexivity |]. split; [reflexivity |]. split; [reflexivity |].
  eexists. split; [vm_compute; reflexivity |].
  split; reflexivity.
Qed.

(* ------------------------------------------------------------------ *)
(** *** Broadcast discipline *)

(** C5 (as amended). Broadcast discipline. In a completed iteration the
    detection block broadcasts one pulse event exactly when it detects a
    rising edge, and one graph event exactly when the sample is not above
    the threshold and the clock read there is a multiple of 50; all other
    pulse events of the iteration come from the connection handler, which
    broadcasts one per new client in the access-point sketch and in the
    health monitor, and none in the station-mode sketch. *)
Theorem broadcast_discipline (k : Sketch) (i : Input) (s s' : State) :
  loop k i s = Some s' ->
  exists new, ws s' = ws s ++ new /\
    broadcasts "pulse" new =
      (connection_pulses k (events i) + if rising_edge i s then 1 else 0)%nat /\
    broadcasts "graph" new =
      if (sample i <=? 600) && (t_graph i mod 50 =? 0) then 1%nat else 0%nat.
Proof.
  intros E.
  exists (handler_traffic k i s ++ env_calls k i s ++ detector_calls i s s').
  split; [apply loop_ws; assumption |].
  rewrite !broadcasts_app. unfold handler_traffic.
  rewrite broadcasts_handler_pulse, broadcasts_handler_graph.
  destruct (broadcasts_env k i s) as (-> & ->).
  unfold detector_calls, rising_edge.
  destruct (Z.ltb_spec 600 (sample i)) as [Hi | Lo].
  - destruct (Z.leb_spec (sample i) 600); [lia |].
    destruct (pulseDetected s); simpl; split; reflexivity.
  - destruct (Z.leb_spec (sample i) 600); [| lia]. simpl.
    destruct (t_graph i mod 50 =? 0); split; reflexivity.
Qed.

Lemma broadcast_discipline_witness :
  exists s' new,
    loop Station (at_time 2000 700 []) (set_lastBeatTime 1000 init) = Some s' /\
    ws s' = new /\
    broadcasts "pulse" new = 1%nat /\ broadcasts "graph" new = O.
Proof.
  destruct (loop Station (at_time 2000 700 []) (set_lastBeatTime 1000 init))
    as [s' |] eqn:E; [| vm_compute in E; discriminate].
  destruct (broadcast_discipline Station _ _ s' E) as (new & W & P & G).
  exists s', new. split; [reflexivity |]. split; [exact W |].
  split; [exact P | exact G].
Defined.

(** The claim as first stated fails in the access-point sketch (and in the
    health monitor): a client connects during an iteration whose sample is
    below the threshold, and a pulse event is broadcast without any rising
    edge. *)
Lemma pulse_broadcast_on_connection :
  rising_edge (at_time 1 0 [connection 0]) init = false /\
  exists s', loop AccessPoint (at_time 1 0 [connection 0]) init = Some s' /\
             ws s' = [BroadcastTXT [("type", JStr "pulse"); ("value", JInt 0);
                                    ("bpm", JInt 0)]%string].
Proof.
  split; [reflexivity |].
  eexists. split; vm_compute; reflexivity.
Qed.

(* ------------------------------------------------------------------ *)
(** *** The environmental sampler *)

(** C7. Environmental sampler frame property. In the health monitor, a
    completed iteration changes [temperature] and [pressure] only through
    the periodic read: when [millis() - lastEnvReadTime > 2000] the two
    variables take the sensor's readings (the pressure divided by 100),
    [lastEnvReadTime] takes the clock and an "environment" event carrying
    the new values is broadcast; in every other iteration [temperature],
    [pressure] and [lastEnvReadTime] are unchanged and the read broadcasts
    nothing. *)
Theorem environment_frame (i : Input) (s s' : State) :
  loop Health i s = Some s' ->
  (2000 < usub (t_env i) (lastEnvReadTime s) ->
     temperature s' = bmp_temperature i /\
     pressure s' = fdiv (bmp_pressure i) (float_of_Z 100) /\
     lastEnvReadTime s' = t_env_set i /\
     ws s' = ws s ++ handler_traffic Health i s ++
             [BroadcastTXT (env_doc s')] ++ detector_calls i s s') /\
  (usub (t_env i) (lastEnvReadTime s) <= 2000 ->
     temperature s' = temperature s /\
     pressure s' = pressure s /\
     lastEnvReadTime s' = lastEnvReadTime s /\
     ws s' = ws s ++ handler_traffic Health i s ++ detector_calls i s s').
Proof.
  intros E.
  pose proof (loop_ws Health i s s' E) as W.
  destruct (loop_environment Health i s s' E) as (Et & Ep & El & _).
  prelude_facts Health i s.
  unfold env_calls, env_fires in *.
  split; intros H.
  - destruct (Z.ltb_spec 2000 (usub (t_env i) (lastEnvReadTime s))); [| lia].
    destruct (Pfire eq_refl) as (A1 & A2 & A3).
    split; [congruence |]. split; [congruence |]. split; [congruence |].
    rewrite W. unfold env_doc, env_reading_doc.
    replace (temperature s') with (bmp_temperature i) by congruence.
    replace (pressure s') with (fdiv (bmp_pressure i) (float_of_Z 100)) by congruence.
    reflexivity.
  - destruct (Z.ltb_spec 2000 (usub (t_env i) (lastEnvReadTime s))); [lia |].
    destruct (Pquiet eq_refl) as (A1 & A2 & A3).
    split; [congruence |]. split; [congruence |]. split; [congruence |].
    rewrite W. reflexivity.
Qed.

Lemma environment_frame_witness :
  exists s', loop Health (at_time 2001 100 []) init = Some s' /\
             temperature s' = float_of_Z 25 /\ lastEnvReadTime s' = 2001.
Proof.
  destruct (loop Health (at_time 2001 100 []) init)
    as [s' |] eqn:E; [| vm_compute in E; discriminate].
  exists s'. split; [reflexivity |].
  destruct (environment_frame _ _ s' E) as [Fire _].
  destruct Fire as (A & _ & C & _); [reflexivity |].
  split; [exact A | exact C].
Defined.

(* ------------------------------------------------------------------ *)
(** *** The snapshot sent to a new client *)

(** C10. Initial snapshot on connect. When a client connects, the handler
    sends, in calls that reach this client, the current [pulseValue] and
    [BPM] (and, in the health monitor, the current [temperature] and
    [pressure]); within an iteration of [loop] everything the handler sends
    precedes what the loop body broadcasts. *)
Theorem snapshot_on_connect (k : Sketch) (s : State) :
  (forall e, ev_type e = WStype_CONNECTED ->
     ws (webSocketEvent k e s) = ws s ++ snapshot k s (ev_num e) /\
     Forall (fun c => reaches (ev_num e) c = true) (snapshot k s (ev_num e)) /\
     (exists c, In c (snapshot k s (ev_num e)) /\
        member "value" (doc_of c) = Some (JInt (pulseValue s)) /\
        member "bpm" (doc_of c) = Some (JInt (BPM s))) /\
     (k = Health ->
      exists c, In c (snapshot k s (ev_num e)) /\
        member "temp" (doc_of c) = Some (JFloat (temperature s)) /\
        member "pressure" (doc_of c) = Some (JFloat (pressure s)))) /\
  (forall i s', loop k i s = Some s' ->
     ws s' = ws s ++ flat_map (handler_calls k s) (events i) ++
             (env_calls k i s ++ detector_calls i s s')).
Proof.
  split.
  - intros e C.
    split.
    { rewrite webSocketEvent_ws. unfold handler_calls, is_connect.
      rewrite C. reflexivity. }
    split.
    { destruct k; simpl; repeat constructor. apply Z.eqb_refl. }
    split.
    { destruct k; simpl; eexists; (split; [left; reflexivity |]);
        split; reflexivity. }
    intros ->. simpl. eexists. split; [right; left; reflexivity |].
    split; reflexivity.
  - intros i s' E. apply (loop_ws k i s s' E).
Qed.

Lemma snapshot_on_connect_witness :
  ws (webSocketEvent Health (connection 3) (latched_at 1000 72)) =
    [BroadcastTXT (pulse_doc (latched_at 1000 72));
     BroadcastTXT (env_doc (latched_at 1000 72))] /\
  exists s', loop Health (at_time 1010 700 [connection 3]) (latched_at 1000 72) = Some s' /\
             ws s' = [BroadcastTXT (pulse_doc (latched_at 1000 72));
                      BroadcastTXT (env_doc (latched_at 1000 72))].
Proof.
  destruct (snapshot_on_connect Health (latched_at 1000 72)) as [Handler Loop].
  split.
  - destruct (Handler (connection 3)) as (W & _); [reflexivity |]. exact W.
  - destruct (loop Health (at_time 1010 700 [connection 3]) (latched_at 1000 72))
      as [s' |] eqn:E; [| vm_compute in E; discriminate].
    exists s'. split; [reflexivity |].
    rewrite (Loop _ s' E). reflexivity.
Defined.

(* ------------------------------------------------------------------ *)
(** *** Division safety *)

(** How a completed iteration changes the latch and [lastBeatTime]. *)
Lemma loop_cases (k : Sketch) (i : Input) (s s' : State) :
  loop k i s = Some s' ->
  (sample i <= 600 /\ pulseDetected s' = false /\
   lastBeatTime s' = lastBeatTime s) \/
  (600 < sample i /\ pulseDetected s = true /\ pulseDetected s' = true /\
   lastBeatTime s' = lastBeatTime s) \/
  (rising_edge i s = true /\ pulseDetected s' = true /\
   lastBeatTime s' = t_beat i).
Proof.
  intros E. unfold rising_edge.
  destruct (Z.ltb_spec 600 (sample i)) as [Hi | Lo].
  - destruct (pulseDetected s) eqn:L.
    + right. left. rewrite loop_latched in E by assumption.
      injection E as <-. prelude_facts k i s.
      repeat split; congruence.
    + right. right.
      destruct (Z_lt_le_dec 0 (lastBeatTime s)) as [T | T].
      * destruct (loop_beat k i s Hi L T) as [(_ & N) | (_ & s1 & E1 & L1 & _ & T1)];
          [congruence |].
        assert (s' = s1) by congruence. subst s'. repeat split; assumption.
      * destruct (loop_first k i s Hi L T) as (s1 & E1 & L1 & _ & T1).
        assert (s' = s1) by congruence. subst s'. repeat split; assumption.
  - left. destruct (loop_low k i s Lo) as (s1 & E1 & L1 & _ & T1).
    assert (s' = s1) by congruence. subst s'. repeat split; assumption.
Qed.

(** [beat_record] holds along every run from the initial state. *)
Lemma beat_recorded (k : Sketch) (ins : list Input) (s : State) :
  run k ins init = Some s -> beat_record ins s.
Proof.
  revert s. induction ins as [| x ins IH] using rev_ind; intros s R.
  - simpl in R. injection R as <-. left. reflexivity.
  - rewrite run_app in R.
    destruct (run k ins init) as [s0 |] eqn:R0; [| discriminate].
    simpl in R. destruct (loop k x s0) as [s1 |] eqn:E; [| discriminate].
    injection R as <-.
    specialize (IH s0 eq_refl).
    destruct (loop_cases k x s0 s1 E)
      as [(Lo & L1 & T1) | [(_ & L0 & L1 & T1) | (Re & L1 & T1)]].
    + destruct IH as [Z0 | (pre & b & post & -> & Ab & Tb & _)].
      * left. congruence.
      * right. exists pre, b, (post ++ [x]).
        split; [rewrite <- app_assoc; reflexivity |].
        split; [assumption |]. split; [congruence |].
        intros _. apply Exists_app. right. constructor. exact Lo.
    + destruct IH as [Z0 | (pre & b & post & -> & Ab & Tb & _)].
      * left. congruence.
      * right. exists pre, b, (post ++ [x]).
        split; [rewrite <- app_assoc; reflexivity |].
        split; [assumption |]. split; [congruence |].
        intros F. congruence.
    + right. exists ins, x, []. split; [reflexivity |].
      apply andb_true_iff in Re. destruct Re as [Hi _]. apply Z.ltb_lt in Hi.
      split; [exact Hi |]. split; [assumption |]. congruence.
Qed.

Lemma fold_min_max_bounds (l : list Z) (d t : Z) :
  In t l -> fold_right Z.min d l <= t <= fold_right Z.max d l.
Proof.
  induction l as [| x l IH]; intros M; [contradiction |].
  simpl. destruct M as [-> | M].
  - split; [apply Z.le_min_l | apply Z.le_max_l].
  - specialize (IH M).
    pose proof (Z.le_min_r x (fold_right Z.min d l)).
    pose proof (Z.le_max_r x (fold_right Z.max d l)).
    lia.
Qed.

Lemma reading_bounds (i : Input) :
  earliest i <= t_bpm i <= latest i /\ earliest i <= t_beat i <= latest i.
Proof.
  unfold earliest, latest, readings.
  split; apply fold_min_max_bounds; simpl; tauto.
Qed.

Lemma in_range_spec (i : Input) :
  in_range i = true ->
  0 <= t_bpm i < 2 ^ 32 /\ 0 <= t_beat i < 2 ^ 32.
Proof.
  unfold in_range, readings. intros H.
  rewrite forallb_forall in H.
  assert (B : forall t, In t [t_bpm i; t_beat i] -> 0 <= t < 2 ^ 32).
  { intros t M.
    assert (I : In t [t_env i; t_env_set i; t_print i; t_print_set i;
                      t_bpm i; t_beat i; t_graph i])
      by (simpl in M |- *; tauto).
    specialize (H t I). apply andb_true_iff in H. destruct H as [H0 H1].
    apply Z.leb_le in H0. apply Z.ltb_lt in H1. split; assumption. }
  split; apply B; simpl; tauto.
Qed.

Lemma clock_advances_head (a : Input) (l : list Input) :
  clock_advances (a :: l) = true -> in_range a = true /\ clock_advances l = true.
Proof.
  simpl. intros H. apply andb_true_iff in H. destruct H as [Ra H].
  split; [assumption |].
  destruct l as [| b l]; [reflexivity |].
  apply andb_true_iff in H. destruct H as [_ H]. exact H.
Qed.

Lemma clock_advances_suffix (l1 l2 : list Input) :
  clock_advances (l1 ++ l2) = true -> clock_advances l2 = true.
Proof.
  induction l1 as [| a l1 IH]; intros H; [assumption |].
  apply IH. apply (clock_advances_head a). exact H.
Qed.

Lemma clock_advances_prefix (l1 l2 : list Input) :
  clock_advances (l1 ++ l2) = true -> clock_advances l1 = true.
Proof.
  induction l1 as [| a l1 IH]; intros H; [reflexivity |].
  simpl in H |- *. apply andb_true_iff in H. destruct H as [Ra H].
  rewrite Ra. simpl.
  destruct l1 as [| b l1]; [reflexivity |].
  simpl app in H. apply andb_true_iff in H. destruct H as [G H].
  rewrite G. simpl. apply IH. exact H.
Qed.

(** Every iteration between two readings pushes them at least one
    millisecond further apart. *)
Lemma clock_gap (a : Input) (mid : list Input) (z : Input) :
  clock_advances (a :: mid ++ [z]) = true ->
  latest a + Z.of_nat (List.length mid) < earliest z.
Proof.
  revert a. induction mid as [| m mid IH]; intros a H.
  - simpl in H. apply andb_true_iff in H. destruct H as [_ H].
    apply andb_true_iff in H. destruct H as [G _].
    apply Z.ltb_lt in G. simpl. lia.
  - pose proof (clock_advances_head a _ H) as [_ H'].
    specialize (IH m H').
    simpl in H. apply andb_true_iff in H. destruct H as [_ H].
    apply andb_true_iff in H. destruct H as [G _].
    apply Z.ltb_lt in G.
    pose proof (reading_bounds m) as [[Lo Up] _].
    simpl List.length. lia.
Qed.

(** The divisor at a rising edge that follows a run from the initial
    state. *)
Lemma safe_divisor (k : Sketch) (ins : list Input) (i : Input) (s : State) :
  clock_advances (ins ++ [i]) = true ->
  run k ins init = Some s ->
  rising_edge i s = true -> 0 < lastBeatTime s ->
  (exists pre b post,
     ins = pre ++ b :: post /\ above b /\ Exists not_above post /\
     lastBeatTime s = t_beat b) /\
  divisor i s = t_bpm i - lastBeatTime s /\ 2 <= divisor i s.
Proof.
  intros C R E T.
  apply andb_true_iff in E. destruct E as [_ L]. apply negb_true_iff in L.
  destruct (beat_recorded k ins s R) as [Z0 | (pre & b & post & -> & Ab & Tb & Np)];
    [lia |].
  specialize (Np L).
  rewrite <- app_assoc in C. simpl in C.
  pose proof (clock_advances_suffix _ _ C) as Cb.
  pose proof (clock_gap b post i Cb) as G.
  pose proof (clock_advances_head _ _ Cb) as [Rb _].
  pose proof (clock_advances_suffix (b :: post) [i] Cb) as Ci.
  pose proof (clock_advances_head _ _ Ci) as [Ri _].
  destruct (in_range_spec b Rb) as [_ Bb].
  destruct (in_range_spec i Ri) as [Bi _].
  pose proof (reading_bounds b) as [_ [_ Ub]].
  pose proof (reading_bounds i) as [[Li _] _].
  assert (Len : (1 <= List.length post)%nat).
  { destruct Np; simpl; lia. }
  assert (D : divisor i s = t_bpm i - lastBeatTime s).
  { unfold divisor. apply usub_exact; lia. }
  split; [exists pre, b, post; repeat split; assumption |].
  split; [assumption |]. lia.
Qed.

(** Under an advancing clock a run from the initial state never divides by
    zero. *)
Lemma run_total (k : Sketch) (ins : list Input) :
  clock_advances ins = true -> exists s, run k ins init = Some s.
Proof.
  induction ins as [| x ins IH] using rev_ind; intros C.
  - exists init. reflexivity.
  - destruct (IH (clock_advances_prefix _ _ C)) as (s & R).
    rewrite run_app, R. simpl.
    destruct (loop k x s) as [s' |] eqn:E; [exists s'; reflexivity |].
    apply loop_none in E. destruct E as (Re & T & Z0).
    destruct (safe_divisor k ins x s C R Re T) as (_ & _ & D). lia.
Qed.

(** C8. Division safety. The division [60000 / (millis() - lastBeatTime)] is
    unguarded, but when the millisecond clock strictly advances from each
    iteration to the next (and does not wrap around), a run from the initial
    state completes, and wherever the division is evaluated, the iteration
    [b] that set [lastBeatTime] has been followed by at least one full
    iteration, one of them with a sample at or below the threshold; so the
    divisor is the elapsed time itself and is at least 2. *)
Theorem division_safety (k : Sketch) (ins : list Input) :
  clock_advances ins = true ->
  (exists s, run k ins init = Some s) /\
  (forall pre i post s,
     ins = pre ++ i :: post ->
     run k pre init = Some s ->
     rising_edge i s = true -> 0 < lastBeatTime s ->
     (exists a b mid,
        pre = a ++ b :: mid /\ above b /\ Exists not_above mid /\
        lastBeatTime s = t_beat b) /\
     divisor i s = t_bpm i - lastBeatTime s /\
     2 <= divisor i s /\
     exists s', loop k i s = Some s').
Proof.
  intros C. split; [apply run_total; assumption |].
  intros pre i post s -> R E T.
  assert (C' : clock_advances (pre ++ [i]) = true).
  { apply (clock_advances_prefix _ post). rewrite <- app_assoc. exact C. }
  destruct (safe_divisor k pre i s C' R E T) as (A & D & G).
  split; [assumption |]. split; [assumption |]. split; [assumption |].
  destruct (loop k i s) as [s' |] eqn:N; [exists s'; reflexivity |].
  apply loop_none in N. destruct N as (_ & _ & Z0). lia.
Qed.

Lemma division_safety_witness :
  exists s s',
    run Station [at_time 1000 700 []; at_time 1010 100 []] init = Some s /\
    divisor (at_time 2000 700 []) s = 1000 /\
    loop Station (at_time 2000 700 []) s = Some s'.
Proof.
  destruct (division_safety Station
              [at_time 1000 700 []; at_time 1010 100 []; at_time 2000 700 []])
    as [_ Safe]; [reflexivity |].
  destruct (run Station [at_time 1000 700 []; at_time 1010 100 []] init)
    as [s |] eqn:R; [| vm_compute in R; discriminate].
  destruct (Safe [at_time 1000 700 []; at_time 1010 100 []]
                 (at_time 2000 700 []) [] s eq_refl R)
    as (_ & D & _ & s' & E).
  - vm_compute in R. injection R as <-. reflexivity.
  - vm_compute in R. injection R as <-. reflexivity.
  - exists s, s'. split; [reflexivity |]. split; [| exact E].
    rewrite D. vm_compute in R. injection R as <-. reflexivity.
Defined.

(** Without the assumption on the clock the division can fail: a rising
    edge in the very millisecond recorded in [lastBeatTime]. *)
Lemma unguarded_division :
  loop Station (at_time 1000 700 []) (set_lastBeatTime 1000 init) = None.
Proof. reflexivity. Qed.

(* ================================================================== *)
(** ** Properties of the radar sketch *)
(* ================================================================== *)

Section RadarProperties.

Import Radar.

Variable pf : Platform.
Variable echo : nat -> Z.

(** One measurement whose conversion to [int] is defined. *)
Lemma calculateDistance_spec (s : State) (z : Z) :
  distance_of pf (echo (pulses s)) = Some z ->
  calculateDistance pf echo s =
    Some (z, {| duration := echo (pulses s); distance := z;
                pulses := S (pulses s);
                trace := trace s ++ measure_trace (echo (pulses s)) |}).
Proof.
  intros D.
  unfold calculateDistance, bind, digitalWrite, delayMicroseconds, emit,
    pulseIn, set_duration, get_duration, lift, set_distance, get_distance.
  simpl. rewrite D. simpl.
  rewrite <- !app_assoc. reflexivity.
Qed.


(** One step of the sweep. *)
Lemma sweep_body_spec (i : Z) (s : State) (z : Z) :
  distance_of pf (echo (pulses s)) = Some z ->
  sweep_body pf echo i s =
    Some (tt, {| duration := echo (pulses s); distance := z;
                 pulses := S (pulses s);
                 trace := trace s ++ step_trace i (echo (pulses s)) z |}).
Proof.
  intros D.
  unfold sweep_body, bind at 1 2.
  unfold myservo_write, delay, emit at 1 2. simpl.
  unfold bind at 1. rewrite (calculateDistance_spec _ z) by exact D. simpl.
  unfold bind, set_distance, Serial_print_int, Serial_print, get_distance, emit.
  simpl. unfold step_trace. rewrite <- !app_assoc. reflexivity.
Qed.

Lemma steps_app (body : Z -> M unit) (a b : list Z) (s : State) :
  steps body (a ++ b) s =
  match steps body a s with
  | Some (_, s') => steps body b s'
  | None => None
  end.
Proof.
  revert s. induction a as [| x a IH]; intros s; simpl; [reflexivity |].
  unfold bind. destruct (body x s) as [[[] s1] |]; [apply IH | reflexivity].
Qed.

(** [dist k] is the distance the sketch computes from the [k]-th echo; the
    hypothesis says that the conversion to [int] is defined for every
    echo. *)
Variable dist : nat -> Z.
Hypothesis dist_defined : forall k, distance_of pf (echo k) = Some (dist k).

(** The steps at a list of angles. *)
Lemma steps_sweep (angles : list Z) (s : State) :
  exists s', steps (sweep_body pf echo) angles s = Some (tt, s') /\
    pulses s' = (pulses s + List.length angles)%nat /\
    trace s' = trace s ++ sweep_trace echo dist angles (pulses s).
Proof.
  revert s. induction angles as [| a angles IH]; intros s; simpl.
  - exists s. split; [reflexivity |]. split; [lia |].
    symmetry. apply app_nil_r.
  - unfold bind. rewrite (sweep_body_spec a s (dist (pulses s))) by apply dist_defined.
    match goal with
    | |- context [steps _ angles ?x] => destruct (IH x) as (s' & E & P & T)
    end.
    exists s'. split; [exact E |]. simpl in P, T.
    split; [lia |]. rewrite T, <- app_assoc. reflexivity.
Qed.

End RadarProperties.

(** *** The two [for] statements *)

Lemma upward_S (i : Z) (n : nat) :
  Radar.upward i (S n) = i :: Radar.upward (i + 1) n.
Proof.
  unfold Radar.upward. simpl. rewrite Z.add_0_r. f_equal.
  rewrite <- seq_shift, map_map. apply map_ext. intros k. lia.
Qed.

Lemma downward_S (i : Z) (n : nat) :
  Radar.downward i (S n) = i :: Radar.downward (i - 1) n.
Proof.
  unfold Radar.downward. simpl. rewrite Z.sub_0_r. f_equal.
  rewrite <- seq_shift, map_map. apply map_ext. intros k. lia.
Qed.

(** The ascending [for] runs its body on [i], [i + 1], ..., [hi]. *)
Lemma for_up_steps (body : Z -> Radar.M unit) (n : nat) :
  forall i hi s, Z.to_nat (hi + 1 - i) = n ->
    Radar.for_up i hi body s = Radar.steps body (Radar.upward i n) s.
Proof.
  induction n as [| n IH]; intros i hi s Hn.
  - rewrite Radar.for_up_equation_1.
    destruct (Z_le_gt_dec i hi); [lia | reflexivity].
  - rewrite Radar.for_up_equation_1.
    destruct (Z_le_gt_dec i hi); [| lia].
    rewrite upward_S. simpl. unfold Radar.bind.
    destruct (body i s) as [[[] s1] |]; simpl; [| reflexivity].
    apply IH. lia.
Qed.

(** The descending [for] runs its body on [i], [i - 1], ..., [lo]. *)
Lemma for_down_steps (body : Z -> Radar.M unit) (n : nat) :
  forall i lo s, Z.to_nat (i + 1 - lo) = n ->
    Radar.for_down i lo body s = Radar.steps body (Radar.downward i n) s.
Proof.
  induction n as [| n IH]; intros i lo s Hn.
  - rewrite Radar.for_down_equation_1.
    destruct (Z_le_gt_dec lo i); [lia | reflexivity].
  - rewrite Radar.for_down_equation_1.
    destruct (Z_le_gt_dec lo i); [| lia].
    rewrite downward_S. simpl. unfold Radar.bind.
    destruct (body i s) as [[[] s1] |]; simpl; [| reflexivity].
    apply IH. lia.
Qed.

(** One pass of [loop] runs the body on the angles of [pass_angles]. *)
Lemma loop_steps (pf : Radar.Platform) (echo : nat -> Z) (s : Radar.State) :
  Radar.loop pf echo s =
  Radar.steps (Radar.sweep_body pf echo) Radar.pass_angles s.
Proof.
  unfold Radar.loop, Radar.pass_angles, Radar.ascending, Radar.descending.
  rewrite steps_app. unfold Radar.bind.
  rewrite (for_up_steps _ 151) by reflexivity.
  destruct (Radar.steps (Radar.sweep_body pf echo) (Radar.upward 15 151) s)
    as [[[] s1] |]; [| reflexivity].
  apply (for_down_steps _ 151). reflexivity.
Qed.

Lemma pass_angles_length : List.length Radar.pass_angles = 302%nat.
Proof. reflexivity. Qed.

Lemma pass_angles_range : Forall (fun a => 15 <= a <= 165) Radar.pass_angles.
Proof.
  unfold Radar.pass_angles, Radar.ascending, Radar.descending,
    Radar.upward, Radar.downward.
  apply Forall_app. split; apply Forall_forall; intros a M;
    apply in_map_iff in M; destruct M as (k & <- & M);
    apply in_seq in M; lia.
Qed.

(** *** Observations on the trace of a sweep *)

Lemma serial_text_app (a b : list Radar.Action) :
  Radar.serial_text (a ++ b) = (Radar.serial_text a ++ Radar.serial_text b)%string.
Proof.
  induction a as [| x a IH]; simpl; [reflexivity |].
  destruct x; try assumption.
  rewrite IH. clear IH.
  induction text as [| c text IHt]; simpl; [reflexivity | f_equal; assumption].
Qed.

Lemma servo_angles_app (a b : list Radar.Action) :
  Radar.servo_angles (a ++ b) = Radar.servo_angles a ++ Radar.servo_angles b.
Proof.
  induction a as [| x a IH]; simpl; [reflexivity |].
  destruct x; simpl; try assumption. f_equal. assumption.
Qed.

Lemma sweep_trace_text (echo dist : nat -> Z) (angles : list Z) (n : nat) :
  Radar.serial_text (Radar.sweep_trace echo dist angles n) =
  Radar.sweep_text dist angles n.
Proof.
  revert n. induction angles as [| a angles IH]; intros n; [reflexivity |].
  cbn [Radar.sweep_trace Radar.sweep_text].
  rewrite serial_text_app, IH. reflexivity.
Qed.

Lemma sweep_trace_angles (echo dist : nat -> Z) (angles : list Z) (n : nat) :
  Radar.servo_angles (Radar.sweep_trace echo dist angles n) = angles.
Proof.
  revert n. induction angles as [| a angles IH]; intros n; [reflexivity |].
  cbn [Radar.sweep_trace].
  rewrite servo_angles_app, IH. reflexivity.
Qed.

Lemma sweep_trace_events (echo dist : nat -> Z) (angles : list Z) (n : nat) :
  Radar.sweep_events (Radar.sweep_trace echo dist angles n) =
  Radar.sweep_pairs echo angles n.
Proof.
  unfold Radar.sweep_events.
  revert n. induction angles as [| a angles IH]; intros n; [reflexivity |].
  cbn [Radar.sweep_trace Radar.sweep_pairs].
  rewrite filter_app, IH. reflexivity.
Qed.

(** One pass of [loop]. *)
Lemma loop_pass (pf : Radar.Platform) (echo dist : nat -> Z) (s : Radar.State) :
  (forall k, Radar.distance_of pf (echo k) = Some (dist k)) ->
  exists s', Radar.loop pf echo s = Some (tt, s') /\
    Radar.pulses s' = (Radar.pulses s + 302)%nat /\
    Radar.trace s' =
      Radar.trace s ++ Radar.sweep_trace echo dist Radar.pass_angles (Radar.pulses s).
Proof.
  intros D. rewrite loop_steps.
  destruct (steps_sweep pf echo dist D Radar.pass_angles s) as (s' & E & P & T).
  exists s'. rewrite pass_angles_length in P. repeat split; assumption.
Qed.

(** Any number of passes writes only angles between 15 and 165. *)
Lemma passes_range (pf : Radar.Platform) (echo dist : nat -> Z) (n : nat) :
  (forall k, Radar.distance_of pf (echo k) = Some (dist k)) ->
  forall s, Forall (fun a => 15 <= a <= 165) (Radar.servo_angles (Radar.trace s)) ->
  exists s', Radar.passes pf echo n s = Some (tt, s') /\
    Forall (fun a => 15 <= a <= 165) (Radar.servo_angles (Radar.trace s')).
Proof.
  intros D. induction n as [| n IH]; intros s F; simpl.
  - exists s. split; [reflexivity | assumption].
  - unfold Radar.bind.
    destruct (loop_pass pf echo dist s D) as (s1 & E & _ & T). rewrite E.
    apply IH. rewrite T, servo_angles_app, sweep_trace_angles.
    apply Forall_app. split; [assumption | apply pass_angles_range].
Qed.

(* ------------------------------------------------------------------ *)
(** *** Distance from echo time *)

(** **** Rounding in [SpecFloat] *)

(** [digits2_pos p] is the number of binary digits of [p]. *)
Lemma digits2_bounds (p : positive) :
  2 ^ (Zpos (digits2_pos p) - 1) <= Zpos p < 2 ^ Zpos (digits2_pos p).
Proof.
  induction p as [p IH | p IH |]; simpl digits2_pos.
  - rewrite Pos2Z.inj_succ.
    replace (Z.succ (Zpos (digits2_pos p)) - 1) with (Z.succ (Zpos (digits2_pos p) - 1)) by lia.
    rewrite !Z.pow_succ_r by lia. lia.
  - rewrite Pos2Z.inj_succ.
    replace (Z.succ (Zpos (digits2_pos p)) - 1) with (Z.succ (Zpos (digits2_pos p) - 1)) by lia.
    rewrite !Z.pow_succ_r by lia. lia.
  - simpl. lia.
Qed.

Lemma digits2_unique (p : positive) (D : Z) :
  2 ^ (D - 1) <= Zpos p < 2 ^ D -> Zpos (digits2_pos p) = D.
Proof.
  intros [Lo Hi].
  pose proof (digits2_bounds p) as [Lo' Hi'].
  assert (0 < D).
  { destruct (Z_lt_le_dec 0 D); [assumption |].
    assert (2 ^ D <= 1).
    { destruct (Z.eq_dec D 0) as [-> | N]; [simpl; lia |].
      rewrite Z.pow_neg_r by lia. lia. }
    lia. }
  destruct (Z.lt_trichotomy (Zpos (digits2_pos p)) D) as [L | [E | G]]; [| exact E |].
  - assert (2 ^ Zpos (digits2_pos p) <= 2 ^ (D - 1)) by (apply Z.pow_le_mono_r; lia).
    lia.
  - assert (2 ^ D <= 2 ^ (Zpos (digits2_pos p) - 1)) by (apply Z.pow_le_mono_r; lia).
    lia.
Qed.

Lemma shr_1_m (R : shr_record) :
  0 <= shr_m R -> shr_m (shr_1 R) = shr_m R / 2 /\ 0 <= shr_m (shr_1 R).
Proof.
  destruct R as [m r s]. cbn [shr_m]. intros H.
  destruct m as [| [p | p |] |]; cbn [shr_1 shr_m]; try lia.
  - split; [reflexivity | lia].
  - split; [| lia]. apply (Z.div_unique _ _ _ 1); lia.
  - split; [| lia]. apply (Z.div_unique _ _ _ 0); lia.
  - split; [reflexivity | lia].
Qed.

Lemma iter_pos_nat {A} (f : A -> A) (n : positive) (x : A) :
  iter_pos f n x = Nat.iter (Pos.to_nat n) f x.
Proof.
  revert x. induction n as [n IH | n IH |]; intros x; simpl iter_pos.
  - rewrite !IH, Pos2Nat.inj_xI.
    replace (2 * Pos.to_nat n)%nat with (Pos.to_nat n + Pos.to_nat n)%nat by lia.
    rewrite Nat.iter_succ_r, Nat.iter_add. reflexivity.
  - rewrite !IH, Pos2Nat.inj_xO.
    replace (2 * Pos.to_nat n)%nat with (Pos.to_nat n + Pos.to_nat n)%nat by lia.
    rewrite Nat.iter_add. reflexivity.
  - reflexivity.
Qed.

Lemma iter_shr_m (n : positive) (R : shr_record) :
  0 <= shr_m R ->
  shr_m (iter_pos shr_1 n R) = shr_m R / 2 ^ Zpos n.
Proof.
  intros H. rewrite iter_pos_nat.
  rewrite <- (positive_nat_Z n).
  induction (Pos.to_nat n) as [| k IH].
  - simpl. rewrite Z.div_1_r. reflexivity.
  - assert (G : 0 <= shr_m (Nat.iter k shr_1 R)).
    { clear IH. induction k; simpl; [assumption |]. apply shr_1_m. assumption. }
    simpl Nat.iter. destruct (shr_1_m _ G) as [E _]. rewrite E, IH.
    rewrite Nat2Z.inj_succ, Z.pow_succ_r by lia.
    rewrite Z.div_div by lia. f_equal. lia.
Qed.

Lemma round_nearest_even_bounds (m : Z) (l : location) :
  m <= round_nearest_even m l <= m + 1.
Proof.
  destruct l as [| []]; simpl; try lia.
  destruct (Z.even m); lia.
Qed.

Section Rounding.

(** The format: precision and maximal exponent. *)

Variables prec emax : Z.
Hypothesis prec_pos : 0 < prec.

Lemma fexp_normal (x : Z) :
  3 - emax - prec <= x - prec -> fexp prec emax x = x - prec.
Proof. intros H. unfold fexp, emin. lia. Qed.

Lemma shr_fexp_shift (m : positive) (e : Z) (n : positive) :
  Zpos (digits2_pos m) - prec = Zpos n ->
  3 - emax - prec <= Zpos (digits2_pos m) + e - prec ->
  shr_fexp prec emax (Zpos m) e loc_Exact =
  (iter_pos shr_1 n {| shr_m := Zpos m; shr_r := false; shr_s := false |}, e + Zpos n).
Proof.
  intros D H. unfold shr_fexp. cbn [Zdigits2 shr_record_of_loc].
  rewrite fexp_normal by lia.
  replace (Zpos (digits2_pos m) + e - prec - e) with (Zpos n) by lia.
  reflexivity.
Qed.

Lemma shr_fexp_noshift (m : positive) (e : Z) :
  Zpos (digits2_pos m) = prec ->
  3 - emax - prec <= e ->
  shr_fexp prec emax (Zpos m) e loc_Exact =
  ({| shr_m := Zpos m; shr_r := false; shr_s := false |}, e).
Proof.
  intros D H. unfold shr_fexp. cbn [Zdigits2 shr_record_of_loc].
  rewrite fexp_normal by lia.
  replace (Zpos (digits2_pos m) + e - prec - e) with 0 by lia.
  reflexivity.
Qed.

(** A mantissa that already has [prec] digits is kept as it is. *)
Lemma binary_round_aux_noshift (m : positive) (e : Z) :
  Zpos (digits2_pos m) = prec ->
  3 - emax - prec <= e -> e <= emax - prec ->
  binary_round_aux prec emax false (Zpos m) e loc_Exact = S754_finite false m e.
Proof.
  intros D Lo Hi. unfold binary_round_aux.
  rewrite shr_fexp_noshift by assumption.
  cbn [shr_m loc_of_shr_record round_nearest_even].
  rewrite shr_fexp_noshift by assumption.
  cbn [shr_m].
  destruct (Z.leb_spec e (emax - prec)); [reflexivity | lia].
Qed.

(** A mantissa with [n] digits too many loses them: the result has [prec]
    digits again and lies between the quotient by [2 ^ n] and its
    successor, at exponent [e + n] (or one more when rounding up reached
    [2 ^ prec]). *)
Lemma binary_round_aux_shift (m : positive) (e : Z) (n : positive) :
  Zpos (digits2_pos m) - prec = Zpos n ->
  3 - emax - prec <= e + Zpos n -> e + Zpos n + 1 <= emax - prec ->
  exists m' e',
    binary_round_aux prec emax false (Zpos m) e loc_Exact = S754_finite false m' e' /\
    Zpos (digits2_pos m') = prec /\
    ((e' = e + Zpos n /\
      Zpos m / 2 ^ Zpos n <= Zpos m' <= Zpos m / 2 ^ Zpos n + 1) \/
     (e' = e + Zpos n + 1 /\ Zpos m' = 2 ^ (prec - 1) /\
      2 ^ prec = Zpos m / 2 ^ Zpos n + 1)).
Proof.
  intros D Lo Hi. unfold binary_round_aux.
  rewrite (shr_fexp_shift m e n) by lia.
  set (R := iter_pos shr_1 n _).
  assert (Q : shr_m R = Zpos m / 2 ^ Zpos n).
  { unfold R. rewrite iter_shr_m; cbn [shr_m]; [reflexivity | lia]. }
  pose proof (digits2_bounds m) as [B1 B2].
  assert (P2 : 0 < 2 ^ Zpos n) by (apply Z.pow_pos_nonneg; lia).
  assert (E1 : 2 ^ (Zpos (digits2_pos m) - 1) = 2 ^ Zpos n * 2 ^ (prec - 1)).
  { rewrite <- Z.pow_add_r by lia. f_equal. lia. }
  assert (E2 : 2 ^ Zpos (digits2_pos m) = 2 ^ Zpos n * 2 ^ prec).
  { rewrite <- Z.pow_add_r by lia. f_equal. lia. }
  assert (Q1 : 2 ^ (prec - 1) <= Zpos m / 2 ^ Zpos n).
  { apply Z.div_le_lower_bound; lia. }
  assert (Q2 : Zpos m / 2 ^ Zpos n < 2 ^ prec).
  { apply Z.div_lt_upper_bound; lia. }
  assert (P1 : 0 < 2 ^ (prec - 1)) by (apply Z.pow_pos_nonneg; lia).
  assert (E3 : 2 ^ prec = 2 * 2 ^ (prec - 1)).
  { replace prec with (Z.succ (prec - 1)) at 1 by lia. apply Z.pow_succ_r. lia. }
  pose proof (round_nearest_even_bounds (shr_m R) (loc_of_shr_record R)) as RB.
  destruct (round_nearest_even (shr_m R) (loc_of_shr_record R)) as [| m0 |] eqn:M0;
    rewrite Q in RB; try lia.
  destruct (Z_lt_le_dec (Zpos m0) (2 ^ prec)) as [Small | Big].
  - assert (D0 : Zpos (digits2_pos m0) = prec) by (apply digits2_unique; lia).
    rewrite shr_fexp_noshift by lia. cbn [shr_m].
    destruct (Z.leb_spec (e + Zpos n) (emax - prec)); [| lia].
    exists m0, (e + Zpos n). split; [reflexivity |]. split; [assumption |].
    left. split; [reflexivity | lia].
  - assert (M1 : Zpos m0 = 2 ^ prec) by lia.
    assert (D0 : Zpos (digits2_pos m0) = prec + 1).
    { apply digits2_unique. replace (prec + 1 - 1) with prec by lia.
      replace (prec + 1) with (Z.succ prec) by lia. rewrite Z.pow_succ_r by lia. lia. }
    rewrite (shr_fexp_shift m0 (e + Zpos n) 1) by lia.
    cbn [iter_pos].
    destruct (shr_1_m {| shr_m := Zpos m0; shr_r := false; shr_s := false |}) as [S1 _];
      [cbn [shr_m]; lia |].
    cbn [shr_m] in S1.
    assert (S2 : Zpos m0 / 2 = 2 ^ (prec - 1)).
    { rewrite M1, E3. rewrite Z.mul_comm. apply Z.div_mul. lia. }
    rewrite S1, S2.
    destruct (2 ^ (prec - 1)) as [| m1 |] eqn:M2; try lia.
    destruct (Z.leb_spec (e + Zpos n + 1) (emax - prec)); [| lia].
    exists m1, (e + Zpos n + 1). split; [reflexivity |]. split.
    + apply digits2_unique. lia.
    + right. split; [reflexivity |]. split; [reflexivity |]. lia.
Qed.

Lemma iter_xO (d j : positive) : Zpos (Pos.iter xO d j) = Zpos d * 2 ^ Zpos j.
Proof.
  induction j as [| j IH] using Pos.peano_ind.
  - cbn [Pos.iter]. lia.
  - rewrite Pos.iter_succ, Pos2Z.inj_xO, IH, Pos2Z.inj_succ, Z.pow_succ_r by lia. lia.
Qed.

(** Conversion of a positive integer of at most [prec] digits: the integer
    itself, shifted left to [prec] digits. *)
Lemma binary_normalize_pos (d : positive) :
  Zpos (digits2_pos d) <= prec ->
  3 - emax - prec <= Zpos (digits2_pos d) - prec -> 0 <= emax - prec ->
  exists m,
    binary_normalize prec emax (Zpos d) 0 false =
      S754_finite false m (Zpos (digits2_pos d) - prec) /\
    Zpos (digits2_pos m) = prec /\
    Zpos m = Zpos d * 2 ^ (prec - Zpos (digits2_pos d)).
Proof.
  intros K Lo Hi. unfold binary_normalize, binary_round.
  rewrite fexp_normal by lia. unfold shl_align.
  pose proof (digits2_bounds d) as [B1 B2].
  destruct (Zpos (digits2_pos d) + 0 - prec - 0) as [| j | j] eqn:J; [| lia |].
  - assert (E : Zpos (digits2_pos d) = prec) by lia.
    exists d. rewrite binary_round_aux_noshift by lia.
    split; [f_equal; lia |]. split; [assumption |].
    replace (prec - Zpos (digits2_pos d)) with 0 by lia. lia.
  - assert (E : prec - Zpos (digits2_pos d) = Zpos j) by lia.
    assert (V : Zpos (Pos.iter xO d j) = Zpos d * 2 ^ Zpos j) by apply iter_xO.
    assert (P : 2 ^ Zpos (digits2_pos d) * 2 ^ Zpos j = 2 ^ prec).
    { rewrite <- Z.pow_add_r by lia. f_equal. lia. }
    assert (P' : 2 ^ (Zpos (digits2_pos d) - 1) * 2 ^ Zpos j = 2 ^ (prec - 1)).
    { rewrite <- Z.pow_add_r by lia. f_equal. lia. }
    assert (P2 : 0 < 2 ^ Zpos j) by (apply Z.pow_pos_nonneg; lia).
    assert (D : Zpos (digits2_pos (Pos.iter xO d j)) = prec).
    { apply digits2_unique. rewrite V, <- P, <- P'. split.
      - apply Z.mul_le_mono_nonneg_r; lia.
      - apply Z.mul_lt_mono_pos_r; lia. }
    exists (Pos.iter xO d j). rewrite binary_round_aux_noshift by lia.
    split; [f_equal; lia |]. split; [assumption |].
    rewrite V, E. reflexivity.
Qed.

(** Division of a [prec]-digit number by two is exact: one less in the
    exponent. *)
Lemma SFdiv_two (m m2 : positive) (e : Z) :
  Zpos (digits2_pos m) = prec ->
  Zpos m2 = 2 ^ (prec - 1) ->
  3 - emax - prec <= e - 2 -> e - 1 <= emax - prec ->
  SFdiv prec emax (S754_finite false m e) (S754_finite false m2 (2 - prec)) =
  S754_finite false m (e - 1).
Proof.
  intros D M2 Lo Hi.
  assert (D2 : Zpos (digits2_pos m2) = prec).
  { apply digits2_unique. rewrite M2. split; [lia |].
    apply Z.pow_lt_mono_r; lia. }
  unfold SFdiv, SFdiv_core_binary. cbn [Zdigits2 xorb]. cbv zeta.
  rewrite D, D2. rewrite fexp_normal by lia.
  replace (Z.min (prec + e - (prec + (2 - prec)) - prec) (e - (2 - prec))) with (e - 2) by lia.
  destruct prec as [| pp |] eqn:PP in |- *; try lia.
  replace (e - (2 - Zpos pp) - (e - 2)) with (Zpos pp) by lia.
  rewrite Z.shiftl_mul_pow2 by lia.
  assert (E3 : 2 ^ Zpos pp = 2 * Zpos m2).
  { rewrite M2, PP. replace (Zpos pp) with (Z.succ (Zpos pp - 1)) at 1 by lia.
    apply Z.pow_succ_r. lia. }
  assert (Q : Z.div_eucl (Zpos m * 2 ^ Zpos pp) (Zpos m2) = (Zpos m~0, 0)).
  { pose proof (Z.div_eucl_eq (Zpos m * 2 ^ Zpos pp) (Zpos m2)) as EQ.
    pose proof (Z.mod_pos_bound (Zpos m * 2 ^ Zpos pp) (Zpos m2)) as BD.
    unfold Z.modulo in BD.
    destruct (Z.div_eucl (Zpos m * 2 ^ Zpos pp) (Zpos m2)) as [q r].
    specialize (EQ ltac:(lia)). specialize (BD ltac:(lia)).
    rewrite E3 in EQ.
    assert (q = 2 * Zpos m) by nia.
    f_equal; lia. }
  rewrite Q.
  assert (L : new_location (Zpos m2) 0 = loc_Exact).
  { unfold new_location, new_location_even, new_location_odd.
    destruct (Z.even (Zpos m2)); reflexivity. }
  rewrite L. rewrite <- PP.
  unfold binary_round_aux.
  rewrite (shr_fexp_shift (m~0) (e - 2) 1).
  2:{ cbn [digits2_pos]. rewrite Pos2Z.inj_succ. lia. }
  2:{ cbn [digits2_pos]. rewrite Pos2Z.inj_succ. lia. }
  cbn [iter_pos shr_1 shr_m orb loc_of_shr_record round_nearest_even].
  rewrite shr_fexp_noshift by lia. cbn [shr_m].
  destruct (Z.leb_spec (e - 2 + 1) (emax - prec)); [| lia].
  f_equal. lia.
Qed.

(** Integer content of the bounds below: a quotient by [Y], moved by at
    most one, then divided by [T], is within one unit of the quotient by
    [T * Y]. *)
Lemma two_quotients (d c X S Y T mt : Z) :
  0 < d -> 0 < c -> 0 < X -> 0 < S -> 0 < Y -> 0 < T ->
  T * Y = X * S -> Y <= 2 * d * X ->
  d * X * c / Y <= mt <= d * X * c / Y + 1 ->
  d * c < (mt / T + 1) * S /\ mt / T * S <= d * c + 2 * d.
Proof.
  intros Hd Hc HX HS HY HT E B M.
  pose proof (Z.mul_div_le (d * X * c) Y HY) as Q1.
  pose proof (Z.mul_succ_div_gt (d * X * c) Y HY) as Q2.
  pose proof (Z.mul_div_le mt T HT) as Z1.
  pose proof (Z.mul_succ_div_gt mt T HT) as Z2.
  set (q := d * X * c / Y) in *. set (z := mt / T) in *.
  assert (Hq : 0 <= q) by (apply Z.div_pos; nia).
  assert (Hz : 0 <= z) by (apply Z.div_pos; lia).
  split.
  - assert (A1 : d * X * c < (z + 1) * (T * Y)).
    { apply Z.lt_le_trans with (Y * Z.succ q); [assumption |].
      replace ((z + 1) * (T * Y)) with (Y * (T * Z.succ z)) by lia.
      apply Z.mul_le_mono_nonneg_l; lia. }
    rewrite E in A1.
    apply (Z.mul_lt_mono_pos_r X); [assumption |]. lia.
  - assert (A2 : z * (T * Y) <= d * X * c + Y).
    { apply Z.le_trans with (Y * (q + 1)); [| lia].
      replace (z * (T * Y)) with (Y * (T * z)) by lia.
      apply Z.mul_le_mono_nonneg_l; lia. }
    rewrite E in A2.
    apply (Z.mul_le_mono_pos_r _ _ X); [assumption |]. lia.
Qed.

(** The float computation [d * c / 2], for an integer [d] and a constant
    [c = cm * 2 ^ ce], through its three roundings: the truncated result
    [z] is within the bounds [d * cm / 2 ^ (1 - ce) - 1 < z] and
    [z <= d * (cm + 2) / 2 ^ (1 - ce)]. *)
Lemma scaled_product (d cm m2 : positive) (ce : Z) :
  1 < prec -> prec <= emax ->
  Zpos (digits2_pos d) <= prec ->
  Zpos (digits2_pos cm) = prec ->
  Zpos m2 = 2 ^ (prec - 1) ->
  3 - emax - prec + 3 <= ce -> prec + ce + 1 <= emax - prec ->
  Zpos (digits2_pos d) + ce < 0 ->
  exists m e,
    SFdiv prec emax
      (SFmul prec emax (binary_normalize prec emax (Zpos d) 0 false)
                       (S754_finite false cm ce))
      (S754_finite false m2 (2 - prec)) = S754_finite false m e /\
    e < 0 /\
    Zpos d * Zpos cm < (Zpos m / 2 ^ (- e) + 1) * 2 ^ (1 - ce) /\
    Zpos m / 2 ^ (- e) * 2 ^ (1 - ce) <= Zpos d * Zpos cm + 2 * Zpos d.
Proof.
  intros P1 PE K C M2 Lo Hi Neg.
  destruct (binary_normalize_pos d) as (md & Hn & Dmd & Vmd); try lia.
  rewrite Hn. cbn [SFmul xorb].
  set (k := Zpos (digits2_pos d)) in *.
  pose proof (digits2_bounds d) as [Bd1 Bd2]. fold k in Bd1, Bd2.
  pose proof (digits2_bounds md) as [Bm1 Bm2]. rewrite Dmd in Bm1, Bm2.
  pose proof (digits2_bounds cm) as [Bc1 Bc2]. rewrite C in Bc1, Bc2.
  assert (Pp : 0 < 2 ^ (prec - 1)) by (apply Z.pow_pos_nonneg; lia).
  assert (E3 : 2 ^ prec = 2 * 2 ^ (prec - 1)).
  { replace prec with (Z.succ (prec - 1)) at 1 by lia. apply Z.pow_succ_r. lia. }
  assert (Dn : exists n : positive,
             Zpos (digits2_pos (md * cm)) - prec = Zpos n /\
             prec - 1 <= Zpos n <= prec).
  { destruct (Z_lt_le_dec (Zpos md * Zpos cm) (2 ^ (prec + (prec - 1)))) as [L | G].
    - exists (Z.to_pos (prec - 1)). rewrite Z2Pos.id by lia. split; [| lia].
      assert (Zpos (digits2_pos (md * cm)) = prec + (prec - 1)); [| lia].
      apply digits2_unique. rewrite Pos2Z.inj_mul. split; [| assumption].
      replace (prec + (prec - 1) - 1) with ((prec - 1) + (prec - 1)) by lia.
      rewrite Z.pow_add_r by lia. apply Z.mul_le_mono_nonneg; lia.
    - exists (Z.to_pos prec). rewrite Z2Pos.id by lia. split; [| lia].
      assert (Zpos (digits2_pos (md * cm)) = prec + prec); [| lia].
      apply digits2_unique. rewrite Pos2Z.inj_mul.
      replace (prec + prec - 1) with (prec + (prec - 1)) by lia.
      split; [assumption |].
      rewrite Z.pow_add_r by lia. apply Z.mul_lt_mono_nonneg; lia. }
  destruct Dn as (n & Dn & Bn).
  destruct (binary_round_aux_shift (md * cm) (k - prec + ce) n) as (m' & e' & Hr & D' & Alt);
    try lia.
  rewrite Hr.
  rewrite (SFdiv_two m' m2 e') by (try assumption; destruct Alt as [[-> _] | [-> _]]; lia).
  exists m', (e' - 1).
  split; [reflexivity |].
  (* the scale factors *)
  set (a := prec - k) in *.
  assert (PX : 0 < 2 ^ a) by (apply Z.pow_pos_nonneg; lia).
  assert (PS : 0 < 2 ^ (1 - ce)) by (apply Z.pow_pos_nonneg; lia).
  assert (PY : 0 < 2 ^ Zpos n) by (apply Z.pow_pos_nonneg; lia).
  set (t := a + (1 - ce) - Zpos n).
  assert (Ht : 1 <= t) by (unfold t, a; lia).
  assert (PT : 0 < 2 ^ t) by (apply Z.pow_pos_nonneg; lia).
  assert (TY : 2 ^ t * 2 ^ Zpos n = 2 ^ a * 2 ^ (1 - ce)).
  { rewrite <- !Z.pow_add_r by lia. f_equal. unfold t. lia. }
  assert (YB : 2 ^ Zpos n <= 2 * Zpos d * 2 ^ a).
  { apply Z.le_trans with (2 ^ prec); [apply Z.pow_le_mono_r; lia |].
    replace prec with (Z.succ (k - 1) + a) at 1 by (unfold a; lia).
    rewrite Z.pow_add_r, Z.pow_succ_r by lia.
    apply Z.mul_le_mono_nonneg_r; lia. }
  assert (V : Zpos (md * cm) = Zpos d * 2 ^ a * Zpos cm).
  { rewrite Pos2Z.inj_mul, Vmd. reflexivity. }
  rewrite V in Alt.
  assert (Z : exists mt, Zpos d * 2 ^ a * Zpos cm / 2 ^ Zpos n <= mt <=
                         Zpos d * 2 ^ a * Zpos cm / 2 ^ Zpos n + 1 /\
                         Zpos m' / 2 ^ (- (e' - 1)) = mt / 2 ^ t /\ e' - 1 < 0).
  { destruct Alt as [[Ee B] | [Ee [Em B]]].
    - exists (Zpos m'). split; [assumption |]. split; [| unfold a in Ht; lia].
      f_equal. f_equal. unfold t, a. lia.
    - exists (2 ^ prec). split; [lia |]. split; [| unfold t, a in Ht; lia].
      rewrite Em, E3.
      replace t with (Z.succ (- (e' - 1))) by (unfold t, a; lia).
      rewrite Z.pow_succ_r by (unfold t, a in Ht; lia).
      rewrite Z.div_mul_cancel_l; [reflexivity | | lia].
      apply Z.pow_nonzero; [lia |]. unfold t, a in Ht; lia. }
  destruct Z as (mt & Bmt & Ez & Ne).
  split; [assumption |].
  rewrite Ez.
  apply (two_quotients (Zpos d) (Zpos cm) (2 ^ a) (2 ^ (1 - ce)) (2 ^ Zpos n) (2 ^ t) mt);
    try lia; assumption.
Qed.

End Rounding.

(** The constants of the computation in the two formats. *)
Lemma lit_0_034_avr : Radar.lit_0_034 Radar.avr = S754_finite false 9126806 (-28).
Proof. vm_compute. reflexivity. Qed.

Lemma lit_0_034_arm32 :
  Radar.lit_0_034 Radar.arm32 = S754_finite false 4899916394579100 (-57).
Proof. vm_compute. reflexivity. Qed.

Lemma of_long_2_avr : Radar.of_long Radar.avr 2 = S754_finite false 8388608 (2 - 24).
Proof. vm_compute. reflexivity. Qed.

Lemma of_long_2_arm32 :
  Radar.of_long Radar.arm32 2 = S754_finite false 4503599627370496 (2 - 53).
Proof. vm_compute. reflexivity. Qed.

Lemma echo_digits (d : positive) :
  Zpos d <= 1000000 -> Zpos (digits2_pos d) <= 20.
Proof.
  intros B. pose proof (digits2_bounds d) as [Lo _].
  destruct (Z_le_gt_dec (Zpos (digits2_pos d)) 20) as [L | G]; [assumption |].
  assert (2 ^ 20 <= 2 ^ (Zpos (digits2_pos d) - 1)) by (apply Z.pow_le_mono_r; lia).
  change (2 ^ 20) with 1048576 in *. lia.
Qed.

Lemma truncate_finite (m : positive) (e : Z) :
  e < 0 -> Radar.truncate (S754_finite false m e) = Some (Zpos m / 2 ^ (- e)).
Proof.
  intros N. destruct e as [| p | p]; try lia.
  cbn [Radar.truncate]. rewrite Z.shiftr_div_pow2 by lia. reflexivity.
Qed.

Lemma distance_cm_nonneg (d : Z) : 0 <= d -> Radar.distance_cm d = 17 * d / 1000.
Proof.
  intros B. unfold Radar.distance_cm.
  rewrite Z.quot_div_nonneg by lia.
  change (1000 * 2) with 2000. Z.div_mod_to_equations. lia.
Qed.

(** On binary32 the three roundings leave the integer part of
    [17 * d / 1000] or one more. *)
Lemma distance_of_avr (d : Z) :
  0 <= d <= 1000000 ->
  exists z, Radar.distance_of Radar.avr d = Some z /\
            17 * d / 1000 <= z <= 17 * d / 1000 + 1.
Proof.
  intros B. destruct d as [| d | d]; [| | lia].
  - exists 0. split; [vm_compute; reflexivity | vm_compute; split; discriminate].
  - pose proof (echo_digits d ltac:(lia)) as K.
    destruct (scaled_product 24 128 ltac:(lia) d 9126806 8388608 (-28))
      as (m & e & F & N & A1 & A2);
      try lia; try reflexivity.
    unfold Radar.distance_of, Radar.to_int.
    rewrite lit_0_034_avr, of_long_2_avr.
    unfold Radar.ddiv, Radar.dmul, Radar.of_long.
    change (Radar.dbl_prec Radar.avr) with 24.
    change (Radar.dbl_emax Radar.avr) with 128.
    rewrite F, truncate_finite by assumption.
    set (z := Zpos m / 2 ^ (- e)) in *.
    change (1 - -28) with 29 in A1, A2. change (2 ^ 29) with 536870912 in A1, A2.
    assert (R : 17 * Zpos d / 1000 <= z <= 17 * Zpos d / 1000 + 1).
    { Z.div_mod_to_equations. lia. }
    assert (U : 17 * Zpos d / 1000 <= 17000).
    { Z.div_mod_to_equations. lia. }
    assert (L : 0 <= 17 * Zpos d / 1000).
    { Z.div_mod_to_equations. lia. }
    assert (C : (- 2 ^ (Radar.int_bits Radar.avr - 1) <=? z) &&
                (z <? 2 ^ (Radar.int_bits Radar.avr - 1)) = true).
    { apply andb_true_iff. split; [apply Z.leb_le | apply Z.ltb_lt];
        change (2 ^ (Radar.int_bits Radar.avr - 1)) with 32768; lia. }
    exists z. rewrite C. split; [reflexivity | assumption].
Qed.

(** On binary64 they leave the integer part itself. *)
Lemma distance_of_arm32 (d : Z) :
  0 <= d <= 1000000 ->
  Radar.distance_of Radar.arm32 d = Some (17 * d / 1000).
Proof.
  intros B. destruct d as [| d | d]; [| | lia].
  - vm_compute. reflexivity.
  - pose proof (echo_digits d ltac:(lia)) as K.
    destruct (scaled_product 53 1024 ltac:(lia) d 4899916394579100 4503599627370496 (-57))
      as (m & e & F & N & A1 & A2); try lia; try reflexivity.
    unfold Radar.distance_of, Radar.to_int.
    rewrite lit_0_034_arm32, of_long_2_arm32.
    unfold Radar.ddiv, Radar.dmul, Radar.of_long.
    change (Radar.dbl_prec Radar.arm32) with 53.
    change (Radar.dbl_emax Radar.arm32) with 1024.
    rewrite F, truncate_finite by assumption.
    set (z := Zpos m / 2 ^ (- e)) in *.
    change (1 - -57) with 58 in A1, A2.
    change (2 ^ 58) with 288230376151711744 in A1, A2.
    assert (R : z = 17 * Zpos d / 1000).
    { Z.div_mod_to_equations. lia. }
    assert (U : 0 <= 17 * Zpos d / 1000 <= 17000).
    { Z.div_mod_to_equations. lia. }
    assert (C : (- 2 ^ (Radar.int_bits Radar.arm32 - 1) <=? z) &&
                (z <? 2 ^ (Radar.int_bits Radar.arm32 - 1)) = true).
    { apply andb_true_iff. split; [apply Z.leb_le | apply Z.ltb_lt];
        change (2 ^ (Radar.int_bits Radar.arm32 - 1)) with 2147483648; lia. }
    rewrite C, R. reflexivity.
Qed.

(** What a measurement returns, stores and prints once the conversion is
    known. *)
Lemma measurement
    (pf : Radar.Platform) (echo : nat -> Z) (s : Radar.State) (i z : Z) :
  Radar.distance_of pf (echo (Radar.pulses s)) = Some z ->
  exists s1 s2,
    Radar.calculateDistance pf echo s = Some (z, s1) /\
    Radar.duration s1 = echo (Radar.pulses s) /\ Radar.distance s1 = z /\
    Radar.sweep_body pf echo i s = Some (tt, s2) /\
    Radar.distance s2 = z /\
    Radar.serial_text (Radar.trace s2) =
      (Radar.serial_text (Radar.trace s) ++
       string_of_Z i ++ "," ++ string_of_Z z ++ ".")%string.
Proof.
  intros D. do 2 eexists.
  split; [apply calculateDistance_spec; exact D |].
  split; [reflexivity |]. split; [reflexivity |].
  split; [apply sweep_body_spec; exact D |].
  split; [reflexivity |]. simpl.
  rewrite serial_text_app. reflexivity.
Qed.

(** The value returned and printed is not always the integer part of
    [echo_duration_us * 0.034 / 2]: on a board with binary32 [double], an
    echo of 554647 microseconds (9428.999 cm) is returned, stored and
    printed as 9429. *)
Lemma distance_rounds_up :
  Radar.distance_cm 554647 = 9428 /\
  option_map fst (Radar.calculateDistance Radar.avr (fun _ => 554647) Radar.init)
    = Some 9429 /\
  option_map (fun r => Radar.serial_text (Radar.trace (snd r)))
    (Radar.sweep_body Radar.avr (fun _ => 554647) 15 Radar.init)
    = Some "15,9429."%string.
Proof. vm_compute. repeat split. Qed.

(** C4 (as amended). Distance from echo time. For every echo measurement of
    at most 1000000 microseconds (the default timeout of [pulseIn]),
    [calculateDistance] stores in [distance] and returns, and the step of
    the sweep prints after the angle and a comma, the [double] product
    [duration * 0.034], halved and converted to [int]: this is the integer
    part of [echo_duration_us * 0.034 / 2] when [double] is binary64, and
    that integer part or one more when [double] is binary32. *)
Theorem distance_from_echo (echo : nat -> Z) (s : Radar.State) (i : Z) :
  0 <= echo (Radar.pulses s) <= 1000000 ->
  exists z32 z64 : Z,
    z64 = Radar.distance_cm (echo (Radar.pulses s)) /\
    (z32 = Radar.distance_cm (echo (Radar.pulses s)) \/
     z32 = Radar.distance_cm (echo (Radar.pulses s)) + 1) /\
    (exists s1 s2,
       Radar.calculateDistance Radar.arm32 echo s = Some (z64, s1) /\
       Radar.duration s1 = echo (Radar.pulses s) /\ Radar.distance s1 = z64 /\
       Radar.sweep_body Radar.arm32 echo i s = Some (tt, s2) /\
       Radar.distance s2 = z64 /\
       Radar.serial_text (Radar.trace s2) =
         (Radar.serial_text (Radar.trace s) ++
          string_of_Z i ++ "," ++ string_of_Z z64 ++ ".")%string) /\
    (exists s1 s2,
       Radar.calculateDistance Radar.avr echo s = Some (z32, s1) /\
       Radar.duration s1 = echo (Radar.pulses s) /\ Radar.distance s1 = z32 /\
       Radar.sweep_body Radar.avr echo i s = Some (tt, s2) /\
       Radar.distance s2 = z32 /\
       Radar.serial_text (Radar.trace s2) =
         (Radar.serial_text (Radar.trace s) ++
          string_of_Z i ++ "," ++ string_of_Z z32 ++ ".")%string).
Proof.
  intros B.
  destruct (distance_of_avr _ B) as (z32 & D32 & R32).
  pose proof (distance_of_arm32 _ B) as D64.
  rewrite <- distance_cm_nonneg in D64, R32 by lia.
  exists z32, (Radar.distance_cm (echo (Radar.pulses s))).
  split; [reflexivity |]. split; [lia |].
  split; apply measurement; assumption.
Qed.

Lemma distance_from_echo_witness :
  exists z32 z64 : Z,
    z64 = Radar.distance_cm 554647 /\
    (z32 = Radar.distance_cm 554647 \/ z32 = Radar.distance_cm 554647 + 1) /\
    (exists s1 s2,
       Radar.calculateDistance Radar.arm32 (fun _ => 554647) Radar.init = Some (z64, s1) /\
       Radar.duration s1 = 554647 /\ Radar.distance s1 = z64 /\
       Radar.sweep_body Radar.arm32 (fun _ => 554647) 15 Radar.init = Some (tt, s2) /\
       Radar.distance s2 = z64 /\
       Radar.serial_text (Radar.trace s2) =
         (Radar.serial_text (Radar.trace Radar.init) ++
          string_of_Z 15 ++ "," ++ string_of_Z z64 ++ ".")%string) /\
    (exists s1 s2,
       Radar.calculateDistance Radar.avr (fun _ => 554647) Radar.init = Some (z32, s1) /\
       Radar.duration s1 = 554647 /\ Radar.distance s1 = z32 /\
       Radar.sweep_body Radar.avr (fun _ => 554647) 15 Radar.init = Some (tt, s2) /\
       Radar.distance s2 = z32 /\
       Radar.serial_text (Radar.trace s2) =
         (Radar.serial_text (Radar.trace Radar.init) ++
          string_of_Z 15 ++ "," ++ string_of_Z z32 ++ ".")%string).
Proof.
  apply (distance_from_echo (fun _ => 554647) Radar.init 15). simpl. lia.
Defined.

(** Rounding is part of the result: for an echo of 999647 microseconds
    the binary32 computation yields 16994, one more than the integer part
    of 17 * 999647 / 1000, which the binary64 computation yields. *)
Lemma distance_rounding :
  Radar.distance_of Radar.avr 999647 = Some 16994 /\
  Radar.distance_of Radar.arm32 999647 = Some 16993 /\
  17 * 999647 / 1000 = 16993.
Proof. vm_compute. repeat split. Qed.

(** The [double] computation against exact arithmetic: for echoes up to
    3000 microseconds, on both platforms, the distance is the integer part of
    [17 * duration / 1000]. *)
Lemma distance_exact_upto_3000 :
  forallb (fun d =>
    match Radar.distance_of Radar.avr d, Radar.distance_of Radar.arm32 d with
    | Some x, Some y => (x =? 17 * d / 1000) && (y =? 17 * d / 1000)
    | _, _ => false
    end) (Radar.upward 0 3001) = true.
Proof. vm_compute. reflexivity. Qed.

(* ------------------------------------------------------------------ *)
(** *** Radar output *)



(** The first readings of a pass, as text. *)
Lemma radar_output_sample :
  Radar.sweep_text (fun _ => 17) (Radar.upward 15 3) 0 = "15,17.16,17.17,17."%string.
Proof. reflexivity. Qed.

(* ------------------------------------------------------------------ *)
(** *** The servo sweep *)

(** C9. Servo sweep invariant. When the conversion of every echo is
    defined, each pass of [loop] writes to the servo the angles 15 up to 165
    and then 165 down to 15, each write being followed by exactly one echo
    measurement before the next write, and after any number of passes from
    the initial state every angle written lies between 15 and 165. *)
Theorem servo_sweep (pf : Radar.Platform) (echo dist : nat -> Z) :
  (forall k, Radar.distance_of pf (echo k) = Some (dist k)) ->
  (forall s, exists s', Radar.loop pf echo s = Some (tt, s') /\
     Radar.servo_angles (Radar.trace s') =
       Radar.servo_angles (Radar.trace s) ++
       Radar.upward 15 151 ++ Radar.downward 165 151 /\
     Radar.sweep_events (Radar.trace s') =
       Radar.sweep_events (Radar.trace s) ++
       Radar.sweep_pairs echo (Radar.upward 15 151 ++ Radar.downward 165 151)
         (Radar.pulses s)) /\
  (forall n, exists s', Radar.passes pf echo n Radar.init = Some (tt, s') /\
     Forall (fun a => 15 <= a <= 165) (Radar.servo_angles (Radar.trace s'))).
Proof.
  intros D. split.
  - intros s.
    destruct (loop_pass pf echo dist s D) as (s' & E & _ & T).
    exists s'. split; [exact E |]. rewrite T. split.
    + rewrite servo_angles_app, sweep_trace_angles. reflexivity.
    + unfold Radar.sweep_events at 1. rewrite filter_app.
      fold (Radar.sweep_events (Radar.trace s)).
      fold (Radar.sweep_events
              (Radar.sweep_trace echo dist Radar.pass_angles (Radar.pulses s))).
      rewrite sweep_trace_events. reflexivity.
  - intros n. apply (passes_range pf echo dist n D). constructor.
Qed.

Lemma servo_sweep_witness :
  exists s', Radar.loop Radar.arm32 (fun _ => 2000) Radar.init = Some (tt, s') /\
    Radar.servo_angles (Radar.trace s') =
      Radar.upward 15 151 ++ Radar.downward 165 151.
Proof.
  destruct (servo_sweep Radar.arm32 (fun _ => 2000) (fun _ => 34)) as [Pass _];
    [intros k; vm_compute; reflexivity |].
  destruct (Pass Radar.init) as (s' & E & A & _).
  exists s'. split; [exact E | exact A].
Defined.

(* ================================================================== *)
(** ** Further properties of the pulse-monitor sketches *)
(* ================================================================== *)

(** *** The detector state *)

(** After a completed iteration the latch says whether the sample was above
    the threshold. *)
Lemma loop_latch (k : Sketch) (i : Input) (s s' : State) :
  loop k i s = Some s' -> pulseDetected s' = (600 <? sample i).
Proof.
  intros E.
  destruct (loop_cases k i s s' E)
    as [(Lo & L & _) | [(Hi & _ & L & _) | (Re & L & _)]].
  - rewrite L. symmetry. apply Z.ltb_ge. exact Lo.
  - rewrite L. symmetry. apply Z.ltb_lt. exact Hi.
  - rewrite L. unfold rising_edge in Re.
    apply andb_true_iff in Re. destruct Re as [Hi _]. symmetry. exact Hi.
Qed.

(** How a completed iteration changes [BPM]. *)
Lemma loop_bpm_cases (k : Sketch) (i : Input) (s s' : State) :
  loop k i s = Some s' ->
  BPM s' = BPM s \/
  (rising_edge i s = true /\ 0 < lastBeatTime s /\ 0 < divisor i s /\
   BPM s' = 60000 / divisor i s).
Proof.
  intros E. unfold rising_edge.
  destruct (Z.ltb_spec 600 (sample i)) as [Hi | Lo].
  - destruct (pulseDetected s) eqn:L.
    + left. rewrite loop_latched in E by assumption.
      injection E as <-. prelude_facts k i s. assumption.
    + destruct (Z_lt_le_dec 0 (lastBeatTime s)) as [T | T].
      * destruct (loop_beat k i s Hi L T) as [(_ & N) | (NZ & s1 & E1 & _ & B1 & _)];
          [congruence |].
        assert (s' = s1) by congruence. subst s'.
        right. split; [reflexivity |]. split; [assumption |].
        split; [| assumption].
        pose proof (usub_range (t_bpm i) (lastBeatTime s)).
        unfold divisor in *. lia.
      * destruct (loop_first k i s Hi L T) as (s1 & E1 & _ & B1 & _).
        left. congruence.
  - destruct (loop_low k i s Lo) as (s1 & E1 & _ & B1 & _).
    left. congruence.
Qed.

(** X1. After any completed run that ends with iteration [i], the latch
    says whether the sample of [i] was above the threshold, and
    [pulseValue] is that sample: the detector remembers one bit about the
    past samples, the comparison of the last one. *)
Theorem latch_tracks_sample
    (k : Sketch) (ins : list Input) (i : Input) (s s' : State) :
  run k (ins ++ [i]) s = Some s' ->
  pulseDetected s' = (600 <? sample i) /\ pulseValue s' = sample i.
Proof.
  intros R. rewrite run_app in R.
  destruct (run k ins s) as [s0 |]; [| discriminate].
  simpl in R. destruct (loop k i s0) as [s1 |] eqn:E; [| discriminate].
  injection R as <-.
  split; [apply (loop_latch k i s0 s1 E) |].
  apply (loop_environment k i s0 s1 E).
Qed.

Lemma latch_tracks_sample_witness :
  exists s', run Station [at_time 10 700 []; at_time 20 600 []] init = Some s' /\
             pulseDetected s' = false /\ pulseValue s' = 600.
Proof.
  destruct (run Station ([at_time 10 700 []] ++ [at_time 20 600 []]) init)
    as [s' |] eqn:R; [| vm_compute in R; discriminate].
  exists s'. split; [exact R |].
  apply (latch_tracks_sample Station [at_time 10 700 []] (at_time 20 600 []) init s' R).
Defined.

(** X2. [BPM] stays between 0 and 60000 along every run from the initial
    state, whatever the clock does; when the clock strictly advances from
    each iteration to the next it stays at or below 30000. *)
Theorem bpm_range (k : Sketch) (ins : list Input) (s : State) :
  run k ins init = Some s ->
  0 <= BPM s <= 60000 /\ (clock_advances ins = true -> BPM s <= 30000).
Proof.
  revert s. induction ins as [| x ins IH] using rev_ind; intros s R.
  - simpl in R. injection R as <-. simpl. split; [lia |]. intros _. lia.
  - rewrite run_app in R.
    destruct (run k ins init) as [s0 |] eqn:R0; [| discriminate].
    simpl in R. destruct (loop k x s0) as [s1 |] eqn:E; [| discriminate].
    injection R as <-.
    destruct (IH s0 eq_refl) as [B0 B1].
    destruct (loop_bpm_cases k x s0 s1 E) as [Same | (Re & T & Pos & B)].
    + rewrite Same. split; [assumption |].
      intros C. apply B1. apply (clock_advances_prefix _ _ C).
    + rewrite B. split.
      * split; [apply Z.div_pos; lia |].
        apply Z.div_le_upper_bound; nia.
      * intros C.
        destruct (safe_divisor k ins x s0 C R0 Re T) as (_ & _ & D).
        apply Z.div_le_upper_bound; lia.
Qed.

Lemma bpm_range_witness :
  exists s,
    run Station [at_time 1000 700 []; at_time 1001 100 []; at_time 1002 700 []] init
      = Some s /\
    BPM s = 30000.
Proof.
  destruct (run Station [at_time 1000 700 []; at_time 1001 100 []; at_time 1002 700 []]
              init) as [s |] eqn:R; [| vm_compute in R; discriminate].
  exists s. split; [reflexivity |].
  destruct (bpm_range Station _ s R) as [[Lo _] Up].
  specialize (Up eq_refl).
  vm_compute in R. injection R as <-. reflexivity.
Defined.

(** X3. When the 32-bit clock has wrapped around since the last beat, the
    [unsigned long] subtraction still yields the elapsed time, and the BPM
    is computed from it. *)
Theorem bpm_across_wrap (k : Sketch) (i : Input) (s : State) :
  600 < sample i -> pulseDetected s = false ->
  0 <= t_bpm i -> t_bpm i < lastBeatTime s -> lastBeatTime s < 2 ^ 32 ->
  exists s', loop k i s = Some s' /\
    BPM s' = 60000 / (2 ^ 32 - lastBeatTime s + t_bpm i) /\
    lastBeatTime s' = t_beat i.
Proof.
  intros Hi L T0 T1 T2.
  assert (D : divisor i s = 2 ^ 32 - lastBeatTime s + t_bpm i).
  { unfold divisor, usub, u32.
    replace (t_bpm i - lastBeatTime s)
      with (2 ^ 32 - lastBeatTime s + t_bpm i + (-1) * 2 ^ 32) by ring.
    rewrite Z.mod_add by lia. apply Z.mod_small. lia. }
  destruct (loop_beat k i s Hi L) as [(Z0 & _) | (_ & s' & E & _ & B & LB)];
    [lia | lia |].
  exists s'. split; [assumption |]. rewrite <- D. split; assumption.
Qed.

Lemma bpm_across_wrap_witness :
  exists s', loop Health (at_time 500 700 []) (set_lastBeatTime 4294966796 init) = Some s' /\
             BPM s' = 60.
Proof.
  destruct (bpm_across_wrap Health (at_time 500 700 []) (set_lastBeatTime 4294966796 init))
    as (s' & E & B & _); try reflexivity; [simpl; lia |].
  exists s'. split; [exact E |]. rewrite B. reflexivity.
Defined.

(** X4. The integer division makes the BPM of a completed rising edge zero
    exactly when more than 60000 ms separate it from the recorded beat. *)
Theorem bpm_zero_iff (k : Sketch) (i : Input) (s s' : State) :
  600 < sample i -> pulseDetected s = false -> 0 < lastBeatTime s ->
  loop k i s = Some s' ->
  (BPM s' = 0 <-> 60000 < usub (t_bpm i) (lastBeatTime s)).
Proof.
  intros Hi L T E.
  destruct (loop_beat k i s Hi L T) as [(_ & N) | (NZ & s1 & E1 & _ & B & _)];
    [congruence |].
  assert (s' = s1) by congruence. subst s'.
  pose proof (usub_range (t_bpm i) (lastBeatTime s)) as R.
  unfold divisor in *. rewrite B.
  set (d := usub (t_bpm i) (lastBeatTime s)) in *.
  split.
  - intros Q. apply Z.div_small_iff in Q; lia.
  - intros G. apply Z.div_small. lia.
Qed.

Lemma bpm_zero_iff_witness :
  exists s', loop Station (at_time 70000 700 []) (set_lastBeatTime 1000 init) = Some s' /\
             BPM s' = 0.
Proof.
  destruct (loop Station (at_time 70000 700 []) (set_lastBeatTime 1000 init))
    as [s' |] eqn:E; [| vm_compute in E; discriminate].
  exists s'. split; [reflexivity |].
  apply (bpm_zero_iff Station (at_time 70000 700 []) (set_lastBeatTime 1000 init) s');
    [reflexivity | reflexivity | reflexivity | exact E | reflexivity].
Defined.

(** X5. An iteration fails, by dividing by zero, exactly when it sees a
    rising edge with a beat on record and the clock read for the division
    equals [lastBeatTime] modulo 2^32; every other iteration completes. *)
Theorem division_by_zero_iff (k : Sketch) (i : Input) (s : State) :
  loop k i s = None <->
  (600 < sample i /\ pulseDetected s = false /\ 0 < lastBeatTime s /\
   (t_bpm i - lastBeatTime s) mod 2 ^ 32 = 0).
Proof.
  rewrite loop_none. unfold rising_edge, divisor, usub, u32.
  rewrite andb_true_iff, Z.ltb_lt, negb_true_iff. tauto.
Qed.

Lemma division_by_zero_iff_witness :
  loop AccessPoint (at_time 1000 700 []) (set_lastBeatTime 1000 init) = None.
Proof.
  apply (division_by_zero_iff AccessPoint (at_time 1000 700 [])
           (set_lastBeatTime 1000 init)).
  repeat split; reflexivity.
Defined.

(** *** Beat detection does not depend on the rest of the sketch *)

Lemma detection_view (i j : Input) (p q : State) :
  detector_view p = detector_view q ->
  t_bpm i = t_bpm j -> t_beat i = t_beat j ->
  option_map detector_view (pulse_detection i p) =
  option_map detector_view (pulse_detection j q).
Proof.
  destruct p as [pv pb pt pp pd pl ps pe pser pws].
  destruct q as [qv qb qt qp qd ql qs qe qser qws].
  unfold detector_view. simpl. intros V Tb Te.
  injection V as -> -> -> ->.
  unfold pulse_detection. simpl. rewrite Tb, Te.
  destruct (600 <? qv).
  - destruct qd; simpl; [reflexivity |].
    destruct (0 <? ql); [| reflexivity].
    destruct (udiv 60000 (usub (t_bpm j) ql)); reflexivity.
  - destruct (t_graph i mod 50 =? 0), (t_graph j mod 50 =? 0); reflexivity.
Qed.

Lemma loop_view (k1 k2 : Sketch) (i j : Input) (s1 s2 : State) :
  detector_view s1 = detector_view s2 -> same_beat_input i j ->
  option_map detector_view (loop k1 i s1) =
  option_map detector_view (loop k2 j s2).
Proof.
  intros V (Sv & Tb & Te). unfold loop.
  apply detection_view; [| assumption | assumption].
  pose proof (loop_prelude_spec k1 i s1) as P1. cbv zeta in P1.
  destruct P1 as (A1 & A2 & A3 & A4 & _).
  pose proof (loop_prelude_spec k2 j s2) as P2. cbv zeta in P2.
  destruct P2 as (B1 & B2 & B3 & B4 & _).
  unfold detector_view in *. injection V as Vv Vb Vd Vt.
  congruence.
Qed.

(** X6. Beat detection is independent of everything else the sketches do:
    two runs, of any two of the three sketches, that see the same samples
    and the same clock at the division and at the assignment of
    [lastBeatTime] end in the same [pulseValue], [BPM], latch and
    [lastBeatTime], or both divide by zero, whatever WebSocket events,
    sensor readings and other clock readings they see. *)
Theorem detector_noninterference
    (k1 k2 : Sketch) (ins1 ins2 : list Input) (s1 s2 : State) :
  detector_view s1 = detector_view s2 ->
  Forall2 same_beat_input ins1 ins2 ->
  option_map detector_view (run k1 ins1 s1) =
  option_map detector_view (run k2 ins2 s2).
Proof.
  intros V F. revert s1 s2 V.
  induction F as [| i j ins1 ins2 S F IH]; intros s1 s2 V; simpl.
  - congruence.
  - pose proof (loop_view k1 k2 i j s1 s2 V S) as E.
    destruct (loop k1 i s1) as [t1 |], (loop k2 j s2) as [t2 |];
      simpl in E; try discriminate; [| reflexivity].
    apply IH. congruence.
Qed.

Lemma detector_noninterference_witness :
  option_map detector_view
    (run Station [at_time 1000 700 []; at_time 1010 100 []; at_time 2000 700 []] init) =
  option_map detector_view
    (run Health [at_time 1000 700 [connection 0]; at_time 1010 100 [];
                 at_time 2000 700 [connection 1]] init).
Proof.
  apply detector_noninterference; [reflexivity |].
  repeat constructor.
Defined.

(** *** The traffic of a run *)

Lemma connection_pulses_app (k : Sketch) (a b : list WsEvent) :
  connection_pulses k (a ++ b) =
  (connection_pulses k a + connection_pulses k b)%nat.
Proof.
  unfold connection_pulses.
  destruct k; [reflexivity | |]; rewrite filter_app, length_app; reflexivity.
Qed.

Lemma broadcasts_detector (i : Input) (s s' : State) :
  broadcasts "pulse" (detector_calls i s s') =
    (if rising_edge i s then 1%nat else 0%nat) /\
  broadcasts "graph" (detector_calls i s s') =
    (if graph_tick i then 1%nat else 0%nat).
Proof.
  unfold detector_calls, rising_edge, graph_tick.
  destruct (Z.ltb_spec 600 (sample i)) as [Hi | Lo].
  - destruct (Z.leb_spec (sample i) 600); [lia |].
    destruct (pulseDetected s); simpl; split; reflexivity.
  - destruct (Z.leb_spec (sample i) 600); [| lia]. simpl.
    destruct (t_graph i mod 50 =? 0); split; reflexivity.
Qed.

(** X7. The pulse events broadcast during a run are as many as the upward
    crossings of the threshold in its samples plus the pulse events of the
    connection handler, and the graph events as many as the iterations whose
    sample is not above the threshold and whose clock is a multiple of 50:
    an iteration that misses such a millisecond sends no graph event. *)
Theorem run_traffic (k : Sketch) (ins : list Input) (s s' : State) :
  run k ins s = Some s' ->
  broadcasts "pulse" (ws s') =
    (broadcasts "pulse" (ws s) + crossings (pulseDetected s) ins +
     connection_pulses k (flat_map events ins))%nat /\
  broadcasts "graph" (ws s') =
    (broadcasts "graph" (ws s) + List.length (filter graph_tick ins))%nat.
Proof.
  revert s. induction ins as [| i ins IH]; intros s R; simpl in R.
  - injection R as <-. simpl. unfold connection_pulses.
    destruct k; simpl; split; lia.
  - destruct (loop k i s) as [s1 |] eqn:E; [| discriminate].
    destruct (IH s1 R) as [P G].
    rewrite P, G, (loop_latch k i s s1 E), (loop_ws k i s s1 E).
    rewrite !broadcasts_app. unfold handler_traffic.
    rewrite broadcasts_handler_pulse, broadcasts_handler_graph.
    destruct (broadcasts_env k i s) as (-> & ->).
    destruct (broadcasts_detector i s s1) as (-> & ->).
    simpl flat_map. rewrite connection_pulses_app.
    simpl. unfold rising_edge.
    destruct (graph_tick i); simpl; split; lia.
Qed.

Lemma run_traffic_witness :
  exists s',
    run AccessPoint [at_time 1000 700 [connection 0]; at_time 1010 700 [];
                     at_time 1050 100 []; at_time 1061 100 [];
                     at_time 2000 700 []] init = Some s' /\
    broadcasts "pulse" (ws s') = 3%nat /\ broadcasts "graph" (ws s') = 1%nat.
Proof.
  destruct (run AccessPoint [at_time 1000 700 [connection 0]; at_time 1010 700 [];
                             at_time 1050 100 []; at_time 1061 100 [];
                             at_time 2000 700 []] init)
    as [s' |] eqn:R; [| vm_compute in R; discriminate].
  exists s'. split; [reflexivity |].
  destruct (run_traffic AccessPoint _ init s' R) as [P G].
  split; [exact P | exact G].
Defined.

(** *** What the clients are told *)

Lemma find_app {A : Type} (f : A -> bool) (a b : list A) :
  find f (a ++ b) =
  match find f a with
  | Some x => Some x
  | None => find f b
  end.
Proof.
  induction a as [| x a IH]; simpl; [reflexivity |].
  destruct (f x); [reflexivity | exact IH].
Qed.

Lemma last_pulse_app (a b : list WsCall) :
  last_pulse (a ++ b) =
  match last_pulse b with
  | Some c => Some c
  | None => last_pulse a
  end.
Proof.
  unfold last_pulse. rewrite rev_app_distr. apply find_app.
Qed.

Lemma last_pulse_in (l : list WsCall) (c : WsCall) :
  last_pulse l = Some c -> In c l /\ has_type "pulse" c = true.
Proof.
  unfold last_pulse. intros F. apply find_some in F.
  destruct F as [M T]. split; [apply in_rev; exact M | exact T].
Qed.

(** The pulse documents of the handler carry the current [BPM]. *)
Lemma handler_traffic_bpm (k : Sketch) (i : Input) (s : State) (c : WsCall) :
  In c (handler_traffic k i s) -> has_type "pulse" c = true ->
  member "bpm" (doc_of c) = Some (JInt (BPM s)).
Proof.
  unfold handler_traffic. intros M T.
  apply in_flat_map in M. destruct M as (e & _ & M).
  unfold handler_calls in M. destruct (is_connect e); [| contradiction].
  destruct k; simpl in M.
  - destruct M as [<- | []]. discriminate.
  - destruct M as [<- | []]. reflexivity.
  - destruct M as [<- | [<- | []]]; [reflexivity | discriminate].
Qed.

Lemma loop_keeps_bpm_current (k : Sketch) (i : Input) (s s' : State) :
  bpm_current s -> loop k i s = Some s' -> bpm_current s'.
Proof.
  unfold bpm_current. intros IH E.
  rewrite (loop_ws k i s s' E).
  rewrite app_assoc, app_assoc, last_pulse_app.
  unfold detector_calls.
  destruct (rising_edge i s) eqn:Re; [reflexivity |].
  assert (B : BPM s' = BPM s).
  { destruct (loop_bpm_cases k i s s' E) as [B | (Re' & _)];
      [exact B | congruence]. }
  rewrite B.
  assert (D : last_pulse
                (if (sample i <=? 600) && (t_graph i mod 50 =? 0)
                 then [BroadcastTXT [("type", JStr "graph");
                                     ("value", JInt (sample i))]%string]
                 else []) = None).
  { destruct ((sample i <=? 600) && (t_graph i mod 50 =? 0)); reflexivity. }
  rewrite D, last_pulse_app.
  assert (Ev : last_pulse (env_calls k i s) = None).
  { unfold env_calls. destruct (env_fires k i s); reflexivity. }
  rewrite Ev, last_pulse_app.
  destruct (last_pulse (handler_traffic k i s)) as [c |] eqn:H; [| exact IH].
  apply last_pulse_in in H. destruct H as [M T].
  apply (handler_traffic_bpm k i s c M T).
Qed.

Lemma run_keeps_bpm_current (k : Sketch) (ins : list Input) (s s' : State) :
  bpm_current s -> run k ins s = Some s' -> bpm_current s'.
Proof.
  revert s. induction ins as [| i ins IH]; intros s C R; simpl in R.
  - injection R as <-. exact C.
  - destruct (loop k i s) as [s1 |] eqn:E; [| discriminate].
    apply (IH s1); [apply (loop_keeps_bpm_current k i s s1 C E) | exact R].
Qed.

(** X8. The clients are never left with a stale BPM: along every run from
    the initial state, the last pulse document sent carries the current
    value of [BPM], and as long as none was sent [BPM] is still 0. *)
Theorem last_pulse_is_current (k : Sketch) (ins : list Input) (s : State) :
  run k ins init = Some s ->
  match last_pulse (ws s) with
  | Some c => member "bpm" (doc_of c) = Some (JInt (BPM s))
  | None => BPM s = 0
  end.
Proof.
  intros R. apply (run_keeps_bpm_current k ins init s); [reflexivity | exact R].
Qed.

Lemma last_pulse_is_current_witness :
  exists s,
    run AccessPoint [at_time 1000 700 []; at_time 1010 100 [];
                     at_time 2000 700 []; at_time 2010 100 [connection 2]] init
      = Some s /\
    BPM s = 60 /\
    last_pulse (ws s) =
      Some (BroadcastTXT [("type", JStr "pulse"); ("value", JInt 700);
                          ("bpm", JInt 60)]%string).
Proof.
  destruct (run AccessPoint [at_time 1000 700 []; at_time 1010 100 [];
                             at_time 2000 700 []; at_time 2010 100 [connection 2]] init)
    as [s |] eqn:R; [| vm_compute in R; discriminate].
  exists s. split; [reflexivity |].
  pose proof (last_pulse_is_current AccessPoint _ s R) as F.
  vm_compute in R. injection R as <-. split; reflexivity.
Defined.

(** X9. The handler answers connections only: for an event of any other
    type it sends nothing and changes no global, and for a type other than
    disconnection and text it does nothing at all. *)
Theorem handler_other_events (k : Sketch) (e : WsEvent) (s : State) :
  ev_type e <> WStype_CONNECTED ->
  ws (webSocketEvent k e s) = ws s /\
  same_globals s (webSocketEvent k e s) /\
  (ev_type e <> WStype_DISCONNECTED -> ev_type e <> WStype_TEXT ->
   webSocketEvent k e s = s).
Proof.
  intros NC.
  split.
  { rewrite webSocketEvent_ws. unfold handler_calls, is_connect.
    destruct (ev_type e); try apply app_nil_r. contradiction. }
  split; [apply webSocketEvent_globals |].
  intros ND NT. unfold webSocketEvent.
  destruct (ev_type e); try reflexivity; contradiction.
Qed.

Lemma handler_other_events_witness :
  ws (webSocketEvent Health
        {| ev_num := 1; ev_type := WStype_TEXT; ev_payload := "hello";
           ev_ip := (192, 168, 4, 2) |} (latched_at 1000 72)) = [].
Proof.
  destruct (handler_other_events Health
              {| ev_num := 1; ev_type := WStype_TEXT; ev_payload := "hello";
                 ev_ip := (192, 168, 4, 2) |} (latched_at 1000 72)) as (W & _);
    [discriminate |].
  exact W.
Defined.

(** The calls of one iteration have one of the four shapes. *)
Lemma loop_call_shapes (k : Sketch) (i : Input) (s s' : State) :
  Forall (call_shape k)
    (handler_traffic k i s ++ env_calls k i s ++ detector_calls i s s').
Proof.
  apply Forall_app. split; [| apply Forall_app; split].
  - unfold handler_traffic. apply Forall_forall. intros c M.
    apply in_flat_map in M. destruct M as (e & _ & M).
    unfold handler_calls in M. destruct (is_connect e); [| contradiction].
    unfold call_shape. destruct k; simpl in M.
    + destruct M as [<- | []]. right. right. right.
      split; [reflexivity |]. eexists _, _, _. reflexivity.
    + destruct M as [<- | []]. left. eexists _, _. reflexivity.
    + destruct M as [<- | [<- | []]].
      * left. eexists _, _. reflexivity.
      * right. right. left. split; [reflexivity |]. eexists _, _. reflexivity.
  - unfold env_calls, env_fires. destruct k; try constructor.
    destruct (2000 <? usub (t_env i) (lastEnvReadTime s)); constructor;
      [| constructor].
    right. right. left. split; [reflexivity |]. eexists _, _. reflexivity.
  - unfold detector_calls.
    destruct (rising_edge i s).
    + constructor; [| constructor]. left. eexists _, _. reflexivity.
    + destruct ((sample i <=? 600) && (t_graph i mod 50 =? 0)); constructor;
        [| constructor].
      right. left. eexists. reflexivity.
Qed.

Lemma run_call_shapes (k : Sketch) (ins : list Input) (s s' : State) :
  Forall (call_shape k) (ws s) -> run k ins s = Some s' ->
  Forall (call_shape k) (ws s').
Proof.
  revert s. induction ins as [| i ins IH]; intros s F R; simpl in R.
  - injection R as <-. exact F.
  - destruct (loop k i s) as [s1 |] eqn:E; [| discriminate].
    apply (IH s1); [| exact R].
    rewrite (loop_ws k i s s1 E). apply Forall_app.
    split; [exact F | apply loop_call_shapes].
Qed.

(** X10. The sketches send four kinds of message and nothing else: along
    every run from the initial state each call is a broadcast of a pulse
    document (type, value, bpm), of a graph document (type, value) or, in
    the health monitor only, of an environment document (type, temp,
    pressure), or, in the station-mode sketch only, an init document (type,
    bpm, value) sent to one client. *)
Theorem message_vocabulary (k : Sketch) (ins : list Input) (s : State) :
  run k ins init = Some s -> Forall (call_shape k) (ws s).
Proof.
  intros R. apply (run_call_shapes k ins init s); [constructor | exact R].
Qed.

Lemma message_vocabulary_witness :
  exists s,
    run Station [at_time 1000 700 [connection 0]; at_time 1050 100 []] init = Some s /\
    Forall (call_shape Station) (ws s) /\ List.length (ws s) = 3%nat.
Proof.
  destruct (run Station [at_time 1000 700 [connection 0]; at_time 1050 100 []] init)
    as [s |] eqn:R; [| vm_compute in R; discriminate].
  exists s. split; [reflexivity |].
  split; [apply (message_vocabulary Station _ s R) |].
  vm_compute in R. injection R as <-. reflexivity.
Defined.

(** *** The periodic blocks *)

Lemma detection_timers (i : Input) (p s' : State) :
  pulse_detection i p = Some s' ->
  lastSerialPrintTime s' = lastSerialPrintTime p.
Proof.
  unfold pulse_detection. intros E.
  destruct (600 <? pulseValue p).
  - destruct (pulseDetected p); simpl in E.
    + injection E as <-. reflexivity.
    + destruct (0 <? lastBeatTime p).
      * destruct (udiv 60000 _); [| discriminate].
        injection E as <-. reflexivity.
      * injection E as <-. reflexivity.
  - destruct (t_graph i mod 50 =? 0); injection E as <-; reflexivity.
Qed.

(** The serial report, when it runs, takes the clock into
    [lastSerialPrintTime]; nothing else writes this variable. *)
Lemma loop_serial_time (k : Sketch) (i : Input) (s s' : State) :
  loop k i s = Some s' ->
  lastSerialPrintTime s' =
    if report_fires i s then t_print_set i else lastSerialPrintTime s.
Proof.
  unfold loop. intros E. rewrite (detection_timers i _ s' E).
  unfold loop_prelude, report_fires.
  set (s1 := webSocket_loop k (events i) s).
  set (s2 := set_pulseValue (sample i) s1).
  set (s3 := read_environment k i s2).
  pose proof (webSocket_loop_globals k (events i) s) as G. fold s1 in G.
  destruct G as (_ & _ & _ & _ & _ & _ & G & _).
  pose proof (read_environment_spec k i s2) as R. fold s3 in R. cbv zeta in R.
  destruct R as (_ & _ & _ & _ & R & _).
  assert (T : lastSerialPrintTime s3 = lastSerialPrintTime s)
    by (rewrite R; simpl; exact G).
  unfold serial_report. rewrite T.
  destruct (200 <? usub (t_print i) (lastSerialPrintTime s)); [| exact T].
  destruct k; reflexivity.
Qed.

(** The environmental read, when it runs, takes the clock into
    [lastEnvReadTime]; nothing else writes this variable. *)
Lemma loop_env_time (k : Sketch) (i : Input) (s s' : State) :
  loop k i s = Some s' ->
  lastEnvReadTime s' =
    if env_fires k i s then t_env_set i else lastEnvReadTime s.
Proof.
  intros E.
  destruct (loop_environment k i s s' E) as (_ & _ & -> & _).
  prelude_facts k i s.
  destruct (env_fires k i s).
  - apply (Pfire eq_refl).
  - apply (Pquiet eq_refl).
Qed.

Lemma in_range_all (i : Input) (t : Z) :
  in_range i = true -> In t (readings i) -> 0 <= t < 2 ^ 32.
Proof.
  unfold in_range. intros H M. rewrite forallb_forall in H.
  specialize (H t M). apply andb_true_iff in H. destruct H as [H0 H1].
  apply Z.leb_le in H0. apply Z.ltb_lt in H1. split; assumption.
Qed.

Lemma reading_between (i : Input) (t : Z) :
  In t (readings i) -> earliest i <= t <= latest i.
Proof.
  unfold earliest, latest. apply fold_min_max_bounds.
Qed.

(** A block that runs when more than [period] ms have passed since the
    clock it last stored in its timer. *)
Section PeriodicBlock.

Variable k : Sketch.
Variable timer : State -> Z.
Variable fires : Input -> State -> bool.
Variables t_test t_set : Input -> Z.
Variable period : Z.
Variable count : list Input -> State -> nat.

Hypothesis fires_spec :
  forall i s, fires i s = true -> period < usub (t_test i) (timer s).
Hypothesis timer_step :
  forall i s s', loop k i s = Some s' ->
    timer s' = if fires i s then t_set i else timer s.
Hypothesis count_step :
  forall i rest s s', loop k i s = Some s' ->
    count (i :: rest) s = ((if fires i s then 1 else 0) + count rest s')%nat.
Hypothesis count_nil : forall s, count [] s = O.
Hypothesis test_read : forall i, In (t_test i) (readings i).
Hypothesis set_read : forall i, In (t_set i) (readings i).

Lemma periodic_rate (ins : list Input) :
  forall s s',
    clock_advances ins = true ->
    Forall (fun i => t_test i <= t_set i) ins ->
    0 <= timer s ->
    match ins with
    | i :: _ => timer s <= earliest i
    | [] => True
    end ->
    run k ins s = Some s' ->
    timer s + period * Z.of_nat (count ins s) <= timer s'.
Proof.
  induction ins as [| i rest IH]; intros s s' C O T0 T1 R; simpl in R.
  - injection R as <-. rewrite count_nil. simpl. lia.
  - destruct (loop k i s) as [s1 |] eqn:E; [| discriminate].
    rewrite (count_step i rest s s1 E).
    pose proof (timer_step i s s1 E) as Ts.
    destruct (clock_advances_head i rest C) as [Ri Cr].
    inversion O as [| ? ? Oi Or]; subst.
    pose proof (in_range_all i _ Ri (test_read i)) as Bt.
    pose proof (in_range_all i _ Ri (set_read i)) as Bs.
    pose proof (reading_between i _ (test_read i)) as Et.
    pose proof (reading_between i _ (set_read i)) as Es.
    assert (Next : match rest with
                   | j :: _ => latest i < earliest j
                   | [] => True
                   end).
    { destruct rest as [| j rest']; [exact I |].
      simpl in C. apply andb_true_iff in C. destruct C as [_ C].
      apply andb_true_iff in C. destruct C as [G _].
      apply Z.ltb_lt in G. exact G. }
    assert (Step : timer s + period * (if fires i s then 1 else 0) <= timer s1
                   /\ 0 <= timer s1 /\ timer s1 <= latest i).
    { rewrite Ts. destruct (fires i s) eqn:F.
      - pose proof (fires_spec i s F) as P.
        rewrite usub_exact in P by lia. lia.
      - lia. }
    destruct Step as (S1 & S2 & S3).
    assert (IHr : timer s1 + period * Z.of_nat (count rest s1) <= timer s').
    { apply IH; try assumption.
      destruct rest as [| j rest']; [exact I | lia]. }
    destruct (fires i s); rewrite Nat2Z.inj_add; simpl Z.of_nat; lia.
Qed.

End PeriodicBlock.

(** X11. The two periodic blocks keep their periods: in a run from the
    initial state under a clock that strictly advances between iterations
    and does not go back within one, the serial report has run at most once
    per 200 ms and the environmental read at most once per 2000 ms of the
    time stored at their last run. *)
Theorem periodic_blocks_rate (k : Sketch) (ins : list Input) (s : State) :
  clock_advances ins = true ->
  forallb clock_ordered ins = true ->
  run k ins init = Some s ->
  200 * Z.of_nat (serial_reports k ins init) <= lastSerialPrintTime s /\
  2000 * Z.of_nat (env_reads k ins init) <= lastEnvReadTime s.
Proof.
  intros C Oc R.
  assert (Start : match ins with
                  | i :: _ => 0 <= earliest i
                  | [] => True
                  end).
  { destruct ins as [| i rest]; [exact I |].
    destruct (clock_advances_head i rest C) as [Ri _].
    unfold earliest. simpl.
    pose proof (fun t M => in_range_all i t Ri M) as B.
    unfold readings in B. simpl in B.
    repeat apply Z.min_glb; apply B; tauto. }
  rewrite forallb_forall in Oc.
  assert (Start' : match ins with
                   | i :: _ => 0 <= earliest i
                   | [] => True
                   end) by exact Start.
  split.
  - assert (Ord : Forall (fun i => t_print i <= t_print_set i) ins).
    { apply Forall_forall. intros i M. specialize (Oc i M).
      unfold clock_ordered in Oc. apply andb_true_iff in Oc.
      destruct Oc as [_ Oc]. apply Z.leb_le in Oc. exact Oc. }
    assert (H2 : forall i s0, report_fires i s0 = true ->
                   200 < usub (t_print i) (lastSerialPrintTime s0)).
    { intros i s0 F. unfold report_fires in F. apply Z.ltb_lt in F. exact F. }
    assert (H3 : forall i rest s0 s1, loop k i s0 = Some s1 ->
                   serial_reports k (i :: rest) s0 =
                   ((if report_fires i s0 then 1 else 0) +
                    serial_reports k rest s1)%nat).
    { intros i rest s0 s1 E. simpl. rewrite E. reflexivity. }
    assert (H4 : forall s0, serial_reports k [] s0 = O) by reflexivity.
    assert (H5 : forall i, In (t_print i) (readings i))
      by (intros i; unfold readings; simpl; tauto).
    assert (H6 : forall i, In (t_print_set i) (readings i))
      by (intros i; unfold readings; simpl; tauto).
    assert (H7 : 0 <= lastSerialPrintTime init) by (simpl; lia).
    pose proof (periodic_rate k lastSerialPrintTime report_fires
                  t_print t_print_set 200 (serial_reports k)
                  H2 (loop_serial_time k) H3 H4 H5 H6
                  ins init s C Ord H7) as P.
    simpl in P. apply P; [| exact R].
    destruct ins; [exact I | exact Start].
  - assert (Ord : Forall (fun i => t_env i <= t_env_set i) ins).
    { apply Forall_forall. intros i M. specialize (Oc i M).
      unfold clock_ordered in Oc. apply andb_true_iff in Oc.
      destruct Oc as [Oc _]. apply Z.leb_le in Oc. exact Oc. }
    assert (H2 : forall i s0, env_fires k i s0 = true ->
                   2000 < usub (t_env i) (lastEnvReadTime s0)).
    { intros i s0 F. unfold env_fires in F.
      destruct k; try discriminate. apply Z.ltb_lt in F. exact F. }
    assert (H3 : forall i rest s0 s1, loop k i s0 = Some s1 ->
                   env_reads k (i :: rest) s0 =
                   ((if env_fires k i s0 then 1 else 0) +
                    env_reads k rest s1)%nat).
    { intros i rest s0 s1 E. simpl. rewrite E. reflexivity. }
    assert (H4 : forall s0, env_reads k [] s0 = O) by reflexivity.
    assert (H5 : forall i, In (t_env i) (readings i))
      by (intros i; unfold readings; simpl; tauto).
    assert (H6 : forall i, In (t_env_set i) (readings i))
      by (intros i; unfold readings; simpl; tauto).
    assert (H7 : 0 <= lastEnvReadTime init) by (simpl; lia).
    pose proof (periodic_rate k lastEnvReadTime (env_fires k)
                  t_env t_env_set 2000 (env_reads k)
                  H2 (loop_env_time k) H3 H4 H5 H6
                  ins init s C Ord H7) as P.
    simpl in P. apply P; [| exact R].
    destruct ins; [exact I | exact Start].
Qed.

Lemma periodic_blocks_rate_witness :
  exists s,
    run Health [at_time 150 100 []; at_time 250 100 []; at_time 300 100 [];
                at_time 2500 100 []] init = Some s /\
    serial_reports Health [at_time 150 100 []; at_time 250 100 [];
                           at_time 300 100 []; at_time 2500 100 []] init = 2%nat /\
    env_reads Health [at_time 150 100 []; at_time 250 100 [];
                      at_time 300 100 []; at_time 2500 100 []] init = 1%nat /\
    lastSerialPrintTime s = 2500.
Proof.
  destruct (run Health [at_time 150 100 []; at_time 250 100 []; at_time 300 100 [];
                        at_time 2500 100 []] init)
    as [s |] eqn:R; [| vm_compute in R; discriminate].
  exists s. split; [reflexivity |].
  destruct (periodic_blocks_rate Health
              [at_time 150 100 []; at_time 250 100 []; at_time 300 100 [];
               at_time 2500 100 []] s eq_refl eq_refl R) as [P E].
  vm_compute in R. injection R as <-.
  repeat split; reflexivity.
Defined.

(* ================================================================== *)
(** ** Properties of the dashboard page *)
(* ================================================================== *)

(** *** The graph keeps the last 200 points *)

Lemma push_point_last (v : Dashboard.JsValue) (pts : list Dashboard.JsValue) :
  (List.length pts <= Dashboard.maxPoints)%nat ->
  Dashboard.push_point v pts = Dashboard.last_points (pts ++ [v]) /\
  (List.length (Dashboard.push_point v pts) <= Dashboard.maxPoints)%nat.
Proof.
  intros L. unfold Dashboard.push_point, Dashboard.last_points.
  rewrite length_app. simpl List.length.
  destruct (Nat.ltb_spec Dashboard.maxPoints (List.length pts + 1)) as [Full | Room].
  - assert (E : (List.length pts + 1 - Dashboard.maxPoints = 1)%nat) by lia.
    rewrite E. split; [destruct (pts ++ [v]); reflexivity |].
    destruct pts as [| x pts']; simpl in *; [lia |].
    rewrite length_app. simpl. lia.
  - assert (E : (List.length pts + 1 - Dashboard.maxPoints = 0)%nat) by lia.
    rewrite E. split; [reflexivity |]. rewrite length_app. simpl. lia.
Qed.

Lemma last_points_app (l m : list Dashboard.JsValue) :
  Dashboard.last_points (Dashboard.last_points l ++ m) =
  Dashboard.last_points (l ++ m).
Proof.
  unfold Dashboard.last_points.
  set (n := (List.length l - Dashboard.maxPoints)%nat).
  rewrite !length_app, length_skipn. fold n.
  destruct (Nat.le_gt_cases (List.length l) Dashboard.maxPoints) as [Small | Big].
  - assert (n = 0%nat) by (unfold n; lia). rewrite H. simpl.
    rewrite Nat.sub_0_r. reflexivity.
  - assert (E1 : (List.length l - n + List.length m - Dashboard.maxPoints
                  = List.length m)%nat) by (unfold n; lia).
    assert (E2 : (List.length l + List.length m - Dashboard.maxPoints
                  = List.length m + n)%nat) by (unfold n; lia).
    rewrite E1, E2, <- skipn_skipn. f_equal.
    rewrite skipn_app.
    assert (E3 : (n - List.length l = 0)%nat) by (unfold n; lia).
    rewrite E3. reflexivity.
Qed.

(** What one message does to the graph's points. *)
Lemma onmessage_points (k : Sketch) (data : JsonDocument) (pg : Dashboard.Page) :
  (Dashboard.graph_values [data] = [] /\
   Dashboard.points (Dashboard.onmessage k data pg) = Dashboard.points pg) \/
  (Dashboard.graph_values [data] = [Dashboard.get "value" data] /\
   Dashboard.points (Dashboard.onmessage k data pg) =
     Dashboard.push_point (Dashboard.get "value" data) (Dashboard.points pg)).
Proof.
  unfold Dashboard.onmessage, Dashboard.graph_values. simpl.
  destruct (Dashboard.get "type" data) as [| [t | z | f]]; try (left; split; reflexivity).
  destruct (String.eqb_spec t "pulse") as [-> | NP]; [left; split; reflexivity |].
  destruct (String.eqb_spec t "graph") as [-> | NG].
  - right. destruct k; split; reflexivity.
  - left. split; [reflexivity |].
    destruct k; try reflexivity.
    destruct (String.eqb t "environment"); [| reflexivity].
    destruct (Dashboard.is_number (Dashboard.get "temp" data)); [| reflexivity].
    destruct (Dashboard.is_number (Dashboard.get "pressure" data)); reflexivity.
Qed.

(** X12. The graph of the page is a sliding window: after any sequence of
    messages it holds the last 200 values of the points it had and of the
    graph messages received since, in order, and never more than 200
    points. *)
Theorem graph_window
    (k : Sketch) (msgs : list JsonDocument) (pg : Dashboard.Page) :
  (List.length (Dashboard.points pg) <= Dashboard.maxPoints)%nat ->
  Dashboard.points (Dashboard.receive k msgs pg) =
    Dashboard.last_points (Dashboard.points pg ++ Dashboard.graph_values msgs) /\
  (List.length (Dashboard.points (Dashboard.receive k msgs pg))
   <= Dashboard.maxPoints)%nat.
Proof.
  revert pg. induction msgs as [| data msgs IH]; intros pg L.
  - simpl. rewrite app_nil_r. split; [| exact L].
    unfold Dashboard.last_points.
    replace (List.length (Dashboard.points pg) - Dashboard.maxPoints)%nat
      with 0%nat by lia.
    reflexivity.
  - change (Dashboard.receive k (data :: msgs) pg)
      with (Dashboard.receive k msgs (Dashboard.onmessage k data pg)).
    replace (Dashboard.graph_values (data :: msgs))
      with (Dashboard.graph_values [data] ++ Dashboard.graph_values msgs)
      by (unfold Dashboard.graph_values; simpl; rewrite app_nil_r; reflexivity).
    destruct (onmessage_points k data pg) as [(G & P) | (G & P)].
    + rewrite G. simpl app.
      destruct (IH (Dashboard.onmessage k data pg)) as [I1 I2];
        [rewrite P; exact L |].
      split; [rewrite I1, P; reflexivity | exact I2].
    + rewrite G.
      destruct (push_point_last (Dashboard.get "value" data)
                  (Dashboard.points pg) L) as [Q1 Q2].
      destruct (IH (Dashboard.onmessage k data pg)) as [I1 I2];
        [rewrite P; exact Q2 |].
      split; [| exact I2].
      rewrite I1, P, Q1, last_points_app, <- app_assoc. reflexivity.
Qed.

Lemma graph_window_witness :
  Dashboard.points
    (Dashboard.receive Station
       (repeat [("type", JStr "graph"); ("value", JInt 512)]%string 250)
       Dashboard.served) =
  repeat (Dashboard.Val (JInt 512)) 200.
Proof.
  destruct (graph_window Station
              (repeat [("type", JStr "graph"); ("value", JInt 512)]%string 250)
              Dashboard.served) as [W _]; [simpl; lia |].
  rewrite W. vm_compute. reflexivity.
Defined.

(** *** What a client sees *)

(** X13. What a new client sees of the snapshot the handler sends: the
    page of the station-mode sketch ignores the init message and stays as
    it was, while the pages of the other two sketches show the current BPM
    and pulse value at once (and play a beat animation), the page of the
    health monitor also the current temperature and pressure. *)
Theorem snapshot_on_page
    (k : Sketch) (e : WsEvent) (s : State) (pg : Dashboard.Page) :
  ev_type e = WStype_CONNECTED ->
  Dashboard.receive k
    (Dashboard.delivered (ev_num e) (ws (webSocketEvent k e s))) pg =
  Dashboard.page_after_snapshot k s
    (Dashboard.receive k (Dashboard.delivered (ev_num e) (ws s)) pg).
Proof.
  intros C. rewrite webSocketEvent_ws.
  unfold Dashboard.delivered, Dashboard.receive.
  rewrite filter_app, map_app, fold_left_app.
  set (pg0 := fold_left _ (map doc_of (filter (reaches (ev_num e)) (ws s))) pg).
  unfold handler_calls, is_connect. rewrite C.
  destruct k; simpl; rewrite ?Z.eqb_refl; reflexivity.
Qed.

Lemma snapshot_on_page_witness :
  Dashboard.receive Station
    (Dashboard.delivered 4 (ws (webSocketEvent Station (connection 4)
                                  (latched_at 1000 72))))
    Dashboard.served = Dashboard.served /\
  Dashboard.bpmElement
    (Dashboard.receive AccessPoint
       (Dashboard.delivered 4 (ws (webSocketEvent AccessPoint (connection 4)
                                     (latched_at 1000 72))))
       Dashboard.served) = Some (Dashboard.Val (JInt 72)).
Proof.
  split.
  - pose proof (snapshot_on_page Station (connection 4) (latched_at 1000 72)
                  Dashboard.served eq_refl) as P.
    change (ev_num (connection 4)) with 4 in P. rewrite P. reflexivity.
  - pose proof (snapshot_on_page AccessPoint (connection 4) (latched_at 1000 72)
                  Dashboard.served eq_refl) as P.
    change (ev_num (connection 4)) with 4 in P. rewrite P. reflexivity.
Defined.

Lemma is_pulse_has_type (c : WsCall) :
  Dashboard.is_pulse (doc_of c) = has_type "pulse" c.
Proof.
  unfold Dashboard.is_pulse, has_type, Dashboard.get.
  destruct (member "type" (doc_of c)) as [[t | z | f] |]; reflexivity.
Qed.

Lemma onmessage_bpm (k : Sketch) (data : JsonDocument) (pg : Dashboard.Page) :
  Dashboard.bpmElement (Dashboard.onmessage k data pg) =
  if Dashboard.is_pulse data then Some (Dashboard.get "bpm" data)
  else Dashboard.bpmElement pg.
Proof.
  unfold Dashboard.onmessage, Dashboard.is_pulse.
  destruct (Dashboard.get "type" data) as [| [t | z | f]]; try reflexivity.
  destruct (String.eqb t "pulse"); [reflexivity |].
  destruct (match k with Health => String.eqb t "environment" | _ => false end).
  - destruct (Dashboard.is_number (Dashboard.get "temp" data)); [| reflexivity].
    destruct (Dashboard.is_number (Dashboard.get "pressure" data)); reflexivity.
  - destruct (String.eqb t "graph"); reflexivity.
Qed.

(** The page shows the BPM of the last pulse message it received. *)
Lemma receive_bpm (k : Sketch) (msgs : list JsonDocument) (pg : Dashboard.Page) :
  Dashboard.bpmElement (Dashboard.receive k msgs pg) =
  match find Dashboard.is_pulse (rev msgs) with
  | Some data => Some (Dashboard.get "bpm" data)
  | None => Dashboard.bpmElement pg
  end.
Proof.
  induction msgs as [| data msgs IH] using rev_ind; [reflexivity |].
  unfold Dashboard.receive in *. rewrite fold_left_app. simpl.
  rewrite onmessage_bpm, rev_app_distr. simpl.
  destruct (Dashboard.is_pulse data); [reflexivity | exact IH].
Qed.

(** Every pulse document of a well-formed log reaches every client. *)
Lemma delivered_last_pulse (k : Sketch) (num : Z) (l : list WsCall) :
  Forall (call_shape k) l ->
  find Dashboard.is_pulse (rev (Dashboard.delivered num l)) =
  option_map doc_of (last_pulse l).
Proof.
  induction l as [| c l IH] using rev_ind; intros F; [reflexivity |].
  apply Forall_app in F. destruct F as [Fl Fc].
  inversion Fc as [| ? ? Sc _]; subst.
  specialize (IH Fl).
  rewrite last_pulse_app. unfold Dashboard.delivered in *.
  rewrite filter_app, map_app, rev_app_distr, find_app.
  destruct Sc as [(v & b & ->) | [(v & ->) | [(_ & t & p & ->) | (_ & n & b & v & ->)]]];
    simpl; try reflexivity; try exact IH.
  destruct (n =? num); simpl; exact IH.
Qed.

(** X14. A client that has received every message of a run from the
    initial state shows the current BPM: the BPM element of its page holds
    the value of the global [BPM], or still the placeholder of the served
    page, and then [BPM] is 0. *)
Theorem page_shows_current_bpm
    (k : Sketch) (ins : list Input) (s : State) (num : Z) :
  run k ins init = Some s ->
  let pg := Dashboard.receive k (Dashboard.delivered num (ws s)) Dashboard.served in
  Dashboard.bpmElement pg = Some (Dashboard.Val (JInt (BPM s))) \/
  (Dashboard.bpmElement pg = None /\ BPM s = 0).
Proof.
  intros R pg. unfold pg.
  assert (Sh : Forall (call_shape k) (ws s))
    by (apply (run_call_shapes k ins init s); [constructor | exact R]).
  assert (Cu : bpm_current s)
    by (apply (run_keeps_bpm_current k ins init s); [reflexivity | exact R]).
  rewrite receive_bpm, (delivered_last_pulse k num (ws s) Sh).
  unfold bpm_current in Cu.
  destruct (last_pulse (ws s)) as [c |]; simpl.
  - left. unfold Dashboard.get. rewrite Cu. reflexivity.
  - right. split; [reflexivity | exact Cu].
Qed.

Lemma page_shows_current_bpm_witness :
  exists s,
    run Station [at_time 1000 700 [connection 0]; at_time 1010 100 [];
                 at_time 2000 700 []] init = Some s /\
    Dashboard.bpmElement
      (Dashboard.receive Station (Dashboard.delivered 0 (ws s)) Dashboard.served)
    = Some (Dashboard.Val (JInt 60)).
Proof.
  destruct (run Station [at_time 1000 700 [connection 0]; at_time 1010 100 [];
                         at_time 2000 700 []] init)
    as [s |] eqn:R; [| vm_compute in R; discriminate].
  exists s. split; [reflexivity |].
  pose proof (page_shows_current_bpm Station _ s 0 R) as P.
  vm_compute in R. injection R as <-. reflexivity.
Defined.

(* ================================================================== *)
(** ** Further properties of the radar sketch *)
(* ================================================================== *)

(** *** Short echoes *)

(** X15. For every echo of at most 3000 microseconds (an obstacle within
    half a metre), on a board with binary32 [double] and 16-bit [int] as on
    one with binary64 [double] and 32-bit [int], the conversion to [int] is
    defined and the [double] computation yields the integer part of
    17 * duration / 1000: rounding never shows. (At 999647 microseconds it
    does, see [distance_rounding].) *)
Theorem distance_exact (d : Z) :
  0 <= d <= 3000 ->
  Radar.distance_of Radar.avr d = Some (17 * d / 1000) /\
  Radar.distance_of Radar.arm32 d = Some (17 * d / 1000).
Proof.
  intros B.
  pose proof distance_exact_upto_3000 as A.
  rewrite forallb_forall in A.
  assert (M : In d (Radar.upward 0 3001)).
  { unfold Radar.upward. apply in_map_iff. exists (Z.to_nat d).
    split; [lia |]. apply in_seq. lia. }
  specialize (A d M).
  destruct (Radar.distance_of Radar.avr d) as [x |]; [| discriminate].
  destruct (Radar.distance_of Radar.arm32 d) as [y |]; [| discriminate].
  apply andb_true_iff in A. destruct A as [Ax Ay].
  apply Z.eqb_eq in Ax. apply Z.eqb_eq in Ay. subst. split; reflexivity.
Qed.

Lemma distance_exact_witness :
  Radar.distance_of Radar.avr 1234 = Some 20 /\
  Radar.distance_of Radar.arm32 1234 = Some 20.
Proof.
  apply (distance_exact 1234). lia.
Defined.

(** *** Passes *)





Lemma sweep_trace_app (echo dist : nat -> Z) (a b : list Z) (n : nat) :
  Radar.sweep_trace echo dist (a ++ b) n =
  Radar.sweep_trace echo dist a n ++
  Radar.sweep_trace echo dist b (n + List.length a).
Proof.
  revert n. induction a as [| x a IH]; intros n.
  - simpl. rewrite Nat.add_0_r. reflexivity.
  - cbn [app Radar.sweep_trace List.length].
    rewrite IH, <- app_assoc, Nat.add_succ_comm. reflexivity.
Qed.

(** The trace of [n] passes is the trace of the steps at the angles of [n]
    passes. *)
Lemma passes_trace (pf : Radar.Platform) (echo dist : nat -> Z) (n : nat) :
  (forall k, Radar.distance_of pf (echo k) = Some (dist k)) ->
  forall s, exists s',
    Radar.passes pf echo n s = Some (tt, s') /\
    Radar.pulses s' = (Radar.pulses s + 302 * n)%nat /\
    Radar.trace s' =
      Radar.trace s ++
      Radar.sweep_trace echo dist (List.concat (repeat Radar.pass_angles n)) (Radar.pulses s).
Proof.
  intros D. induction n as [| n IH]; intros s.
  - exists s. split; [reflexivity |]. split; [lia |].
    simpl. symmetry. apply app_nil_r.
  - simpl Radar.passes. unfold Radar.bind.
    destruct (loop_pass pf echo dist s D) as (s1 & E & P1 & T1). rewrite E.
    destruct (IH s1) as (s' & E' & P' & T').
    exists s'. split; [exact E' |]. split; [lia |].
    rewrite T', T1, <- app_assoc. f_equal.
    change (List.concat (repeat Radar.pass_angles (S n)))
      with (Radar.pass_angles ++ List.concat (repeat Radar.pass_angles n)).
    rewrite sweep_trace_app, pass_angles_length, P1.
    reflexivity.
Qed.

Lemma concat_repeat_length (n : nat) :
  List.length (List.concat (repeat Radar.pass_angles n)) = (302 * n)%nat.
Proof.
  induction n as [| n IH]; [reflexivity |].
  change (List.concat (repeat Radar.pass_angles (S n)))
    with (Radar.pass_angles ++ List.concat (repeat Radar.pass_angles n)).
  rewrite length_app, IH, pass_angles_length. lia.
Qed.

Lemma measurements_app (a b : list Radar.Action) :
  Radar.measurements (a ++ b) = (Radar.measurements a + Radar.measurements b)%nat.
Proof.
  induction a as [| x a IH]; simpl; [reflexivity |].
  destruct x; simpl; rewrite IH; reflexivity.
Qed.

Lemma delay_ms_app (a b : list Radar.Action) :
  Radar.delay_ms (a ++ b) = Radar.delay_ms a + Radar.delay_ms b.
Proof.
  induction a as [| x a IH]; simpl; [reflexivity |].
  destruct x; simpl; rewrite IH; lia.
Qed.

Lemma delay_us_app (a b : list Radar.Action) :
  Radar.delay_us (a ++ b) = Radar.delay_us a + Radar.delay_us b.
Proof.
  induction a as [| x a IH]; simpl; [reflexivity |].
  destruct x; simpl; rewrite IH; lia.
Qed.

Lemma sweep_trace_totals (echo dist : nat -> Z) (angles : list Z) (n : nat) :
  Radar.measurements (Radar.sweep_trace echo dist angles n) = List.length angles /\
  Radar.delay_ms (Radar.sweep_trace echo dist angles n) =
    15 * Z.of_nat (List.length angles) /\
  Radar.delay_us (Radar.sweep_trace echo dist angles n) =
    12 * Z.of_nat (List.length angles).
Proof.
  revert n. induction angles as [| a angles IH]; intros n.
  - repeat split.
  - destruct (IH (S n)) as (M & D & U).
    cbn [Radar.sweep_trace].
    rewrite measurements_app, delay_ms_app, delay_us_app, M, D, U.
    change (Radar.measurements (Radar.step_trace a (echo n) (dist n))) with 1%nat.
    change (Radar.delay_ms (Radar.step_trace a (echo n) (dist n))) with 15.
    change (Radar.delay_us (Radar.step_trace a (echo n) (dist n))) with 12.
    cbn [List.length]. rewrite Nat2Z.inj_succ.
    repeat split; lia.
Qed.

(** X17. [n] passes from the initial state make 302 * n servo writes, each
    followed by one echo measurement, and spend 4530 * n ms in [delay] and
    3624 * n microseconds in [delayMicroseconds] (the echo waits of
    [pulseIn] come on top). *)
Theorem passes_totals (pf : Radar.Platform) (echo dist : nat -> Z) (n : nat) :
  (forall k, Radar.distance_of pf (echo k) = Some (dist k)) ->
  exists s', Radar.passes pf echo n Radar.init = Some (tt, s') /\
    Radar.servo_angles (Radar.trace s') = List.concat (repeat Radar.pass_angles n) /\
    Radar.measurements (Radar.trace s') = (302 * n)%nat /\
    Radar.delay_ms (Radar.trace s') = 4530 * Z.of_nat n /\
    Radar.delay_us (Radar.trace s') = 3624 * Z.of_nat n.
Proof.
  intros D.
  destruct (passes_trace pf echo dist n D Radar.init) as (s' & E & _ & T).
  exists s'. split; [exact E |]. simpl in T. rewrite T.
  destruct (sweep_trace_totals echo dist (List.concat (repeat Radar.pass_angles n)) 0)
    as (M & Dm & Du).
  rewrite sweep_trace_angles, M, Dm, Du, concat_repeat_length.
  repeat split; lia.
Qed.

Lemma passes_totals_witness :
  exists s', Radar.passes Radar.avr (fun _ => 1000) 2 Radar.init = Some (tt, s') /\
    Radar.measurements (Radar.trace s') = 604%nat /\
    Radar.delay_ms (Radar.trace s') = 9060.
Proof.
  destruct (passes_totals Radar.avr (fun _ => 1000) (fun _ => 17) 2)
    as (s' & E & _ & M & D & _); [intros k; vm_compute; reflexivity |].
  exists s'. split; [exact E |]. split; [exact M | exact D].
Defined.

(** *** Reading the serial stream back *)

Lemma string_app_assoc (a b c : string) :
  ((a ++ b) ++ c)%string = (a ++ (b ++ c))%string.
Proof.
  induction a as [| x a IH]; simpl; [reflexivity | f_equal; exact IH].
Qed.

Lemma split_at_app (c : ascii) (a rest : string) :
  Radar.avoids c a = true ->
  Radar.split_at c (a ++ String c rest) = Some (a, rest).
Proof.
  induction a as [| x a IH]; simpl; intros A.
  - rewrite Ascii.eqb_refl. reflexivity.
  - apply andb_true_iff in A. destruct A as [Ax Aa].
    apply negb_true_iff in Ax. rewrite Ax, (IH Aa). reflexivity.
Qed.

(** The text of an integer has neither comma nor full stop. *)
Lemma digits_avoid (c : ascii) (d : Decimal.uint) :
  c = ","%char \/ c = "."%char ->
  Radar.avoids c (NilEmpty.string_of_uint d) = true.
Proof.
  intros [-> | ->]; induction d; simpl; try reflexivity; exact IHd.
Qed.

Lemma string_of_Z_avoids (c : ascii) (z : Z) :
  c = ","%char \/ c = "."%char ->
  Radar.avoids c (string_of_Z z) = true.
Proof.
  intros C. unfold string_of_Z, NilZero.string_of_int, NilZero.string_of_uint.
  assert (U : forall d, Radar.avoids c
                match d with
                | Decimal.Nil => "0"%string
                | _ => NilEmpty.string_of_uint d
                end = true).
  { intros d. destruct d; try apply (digits_avoid c _ C).
    destruct C as [-> | ->]; reflexivity. }
  destruct (Z.to_int z) as [d | d]; [apply U |].
  simpl. rewrite U.
  destruct C as [-> | ->]; reflexivity.
Qed.

(** The text of an integer reads back as that integer. *)
Lemma Z_of_string_of_Z (z : Z) : Radar.Z_of_string (string_of_Z z) = Some z.
Proof.
  unfold Radar.Z_of_string, string_of_Z.
  rewrite NilZero.isi.
  - simpl. f_equal. apply DecimalZ.of_to.
  - destruct z; simpl; try discriminate.
    intros H. injection H as H. apply (DecimalPos.Unsigned.to_uint_nonnil _ H).
  - destruct z; simpl; try discriminate.
    intros H. injection H as H. apply (DecimalPos.Unsigned.to_uint_nonnil _ H).
Qed.

Lemma parse_sweep_text (dist : nat -> Z) (angles : list Z) :
  forall n fuel, (List.length angles <= fuel)%nat ->
    Radar.parse_readings fuel (Radar.sweep_text dist angles n) =
    Some (Radar.sweep_readings dist angles n).
Proof.
  induction angles as [| a angles IH]; intros n fuel L.
  - destruct fuel; reflexivity.
  - destruct fuel as [| fuel]; [simpl in L; lia |].
    cbn [Radar.sweep_text Radar.sweep_readings]. unfold Radar.reading_text.
    rewrite !string_app_assoc.
    change (("," ++ string_of_Z (dist n) ++ "." ++ Radar.sweep_text dist angles (S n))%string)
      with (String ","%char
              (string_of_Z (dist n) ++
               String "."%char (Radar.sweep_text dist angles (S n)))%string).
    set (tail := Radar.sweep_text dist angles (S n)).
    set (rest := (string_of_Z (dist n) ++ String "."%char tail)%string).
    assert (S1 : Radar.split_at ","%char (string_of_Z a ++ String ","%char rest)
                 = Some (string_of_Z a, rest))
      by (apply split_at_app, string_of_Z_avoids; left; reflexivity).
    assert (S2 : Radar.split_at "."%char rest = Some (string_of_Z (dist n), tail))
      by (apply split_at_app, string_of_Z_avoids; right; reflexivity).
    destruct (string_of_Z a ++ String ","%char rest)%string as [| x y] eqn:Text.
    + destruct (string_of_Z a); discriminate.
    + cbn [Radar.parse_readings]. rewrite S1, S2, !Z_of_string_of_Z.
      unfold tail. rewrite IH by (simpl in L; lia). reflexivity.
Qed.

Lemma sweep_text_length (dist : nat -> Z) (angles : list Z) (n : nat) :
  (List.length angles <= String.length (Radar.sweep_text dist angles n))%nat.
Proof.
  revert n. induction angles as [| a angles IH]; intros n; simpl; [lia |].
  unfold Radar.reading_text. rewrite !string_app_assoc.
  specialize (IH (S n)).
  assert (A : forall x y, String.length (x ++ y) =
                          (String.length x + String.length y)%nat).
  { induction x as [| c x IHx]; intros y; simpl; [reflexivity |].
    rewrite IHx. reflexivity. }
  rewrite !A. simpl. lia.
Qed.

(** X18. The serial stream can be read back: from the text that any number
    of passes from the initial state write to the serial port, splitting at
    the full stops and commas recovers the angle and the distance of every
    step, in order. *)
Theorem stream_round_trip (pf : Radar.Platform) (echo dist : nat -> Z) (n : nat) :
  (forall k, Radar.distance_of pf (echo k) = Some (dist k)) ->
  exists s', Radar.passes pf echo n Radar.init = Some (tt, s') /\
    Radar.read_stream (Radar.serial_text (Radar.trace s')) =
      Some (Radar.sweep_readings dist (List.concat (repeat Radar.pass_angles n)) 0).
Proof.
  intros D.
  destruct (passes_trace pf echo dist n D Radar.init) as (s' & E & _ & T).
  exists s'. split; [exact E |]. simpl in T. rewrite T, sweep_trace_text.
  unfold Radar.read_stream. apply parse_sweep_text, sweep_text_length.
Qed.

Lemma stream_round_trip_witness :
  exists s',
    Radar.passes Radar.avr (fun k => 1000 + 100 * Z.of_nat (k mod 2)) 1 Radar.init
      = Some (tt, s') /\
    Radar.read_stream (Radar.serial_text (Radar.trace s')) =
      Some (Radar.sweep_readings (fun k => 17 + Z.of_nat (k mod 2))
              (List.concat (repeat Radar.pass_angles 1)) 0).
Proof.
  apply (stream_round_trip Radar.avr (fun k => 1000 + 100 * Z.of_nat (k mod 2))
           (fun k => 17 + Z.of_nat (k mod 2)) 1).
  intros k. pose proof (Nat.mod_upper_bound k 2) as B.
  destruct (k mod 2)%nat as [| [| m]]; [reflexivity | reflexivity | lia].
Defined.

(* ================================================================== *)
(** ** The health monitor before its first environmental read *)
(* ================================================================== *)

Lemma no_read_before_2000 (ins : list Input) (s0 s : State) :
  Forall (fun i => 0 <= t_env i <= 2000) ins ->
  lastEnvReadTime s0 = 0 ->
  run Health ins s0 = Some s ->
  env_reads Health ins s0 = O /\
  temperature s = temperature s0 /\ pressure s = pressure s0.
Proof.
  intros F. revert s0.
  induction F as [| i rest Bi F IH]; intros s0 T0 R0; simpl in R0.
  - injection R0 as <-. repeat split.
  - destruct (loop Health i s0) as [s1 |] eqn:E; [| discriminate].
    assert (Q : env_fires Health i s0 = false).
    { unfold env_fires, usub, u32. rewrite T0, Z.sub_0_r.
      rewrite Z.mod_small by lia. apply Z.ltb_ge. lia. }
    pose proof (loop_env_time Health i s0 s1 E) as T1. rewrite Q in T1.
    destruct (loop_environment Health i s0 s1 E) as (Et & Ep & _ & _).
    prelude_facts Health i s0.
    destruct (Pquiet Q) as (Qt & Qp & _).
    destruct (IH s1) as (N & It & Ip); [congruence | exact R0 |].
    cbn [env_reads]. rewrite E, Q, N.
    repeat split; congruence.
Qed.

(** X19. Cold start of the health monitor: as long as the clock read for
    the environmental block has not passed 2000 ms, no read takes place, so
    [temperature] and [pressure] are still the zeros they were initialised
    with, and these zeros are what the snapshot for a client that connects
    next carries. *)
Theorem cold_start (ins : list Input) (s : State) :
  Forall (fun i => 0 <= t_env i <= 2000) ins ->
  run Health ins init = Some s ->
  env_reads Health ins init = O /\
  temperature s = float_of_Z 0 /\ pressure s = float_of_Z 0 /\
  forall num,
    In (BroadcastTXT [("type", JStr "environment");
                      ("temp", JFloat (float_of_Z 0));
                      ("pressure", JFloat (float_of_Z 0))]%string)
       (ws (webSocketEvent Health (connection num) s)).
Proof.
  intros F R.
  destruct (no_read_before_2000 ins init s F eq_refl R) as (N & Gt & Gp).
  split; [exact N |]. split; [exact Gt |]. split; [exact Gp |].
  intros num. rewrite webSocketEvent_ws. apply in_or_app. right.
  unfold handler_calls. simpl. right. left.
  unfold env_doc. rewrite Gt, Gp. reflexivity.
Qed.

Lemma cold_start_witness :
  exists s,
    run Health [at_time 500 100 []; at_time 1900 700 [connection 1]] init = Some s /\
    temperature s = float_of_Z 0.
Proof.
  destruct (run Health [at_time 500 100 []; at_time 1900 700 [connection 1]] init)
    as [s |] eqn:R; [| vm_compute in R; discriminate].
  exists s. split; [reflexivity |].
  destruct (cold_start [at_time 500 100 []; at_time 1900 700 [connection 1]] s)
    as (_ & T & _); [| exact R | exact T].
  repeat constructor; simpl; lia.
Defined.
